(** * HX711 load-cell amplifier driver (src/HX711.ts)

    A shallow embedding of the MakeCode driver for the HX711 24-bit
    differential A/D converter, and the properties of its read protocol
    and of its calibration layer.

    The driver talks to the outside world through four platform calls
    ([pins.digitalReadPin], [pins.digitalWritePin], [control.waitMicros],
    [basic.pause]) and [input.runningTime].  They are modelled by a small
    state-and-trace monad: the state holds the module-level variables of
    the namespace and the script of levels the device will present; the
    trace records every platform call in order. *)

From Stdlib Require Import ZArith Lia Bool Floats.
From stdpp Require Import base tactics numbers option list.

Local Open Scope Z_scope.

(** ** Numbers *)

(** The bitwise operators of the language work on 32-bit signed integers:
    both operands are wrapped to that range, and so is the result. *)
Definition to_int32 (z : Z) : Z := (z + 2 ^ 31) mod 2 ^ 32 - 2 ^ 31.

(** [a << n]: the shift count is taken modulo 32. *)
Definition shl32 (a n : Z) : Z := to_int32 (Z.shiftl (to_int32 a) (n mod 32)).

(** [a | b] *)
Definition or32 (a b : Z) : Z := to_int32 (Z.lor (to_int32 a) (to_int32 b)).

(** [a & b] *)
Definition and32 (a b : Z) : Z := to_int32 (Z.land (to_int32 a) (to_int32 b)).

(** A [number] that takes part in [+ - * /] is an IEEE-754 double. *)
Definition number : Type := float.

(** An integer used as a [number]: the nearest double (exact up to 2^53). *)
Definition number_of_Z (z : Z) : number :=
  SF2Prim (binary_normalize prec emax z 0 false).

(** ** Pins, platform calls and the state *)

(** The pins of the board's edge connector ([DigitalPin]). *)
Inductive DigitalPin : Set :=
| P0 | P1 | P2 | P3 | P4 | P5 | P6 | P7 | P8 | P9 | P10
| P11 | P12 | P13 | P14 | P15 | P16 | P19 | P20.

#[global] Instance DigitalPin_eq_dec : EqDecision DigitalPin.
Proof. solve_decision. Defined.

(** One entry of the trace per platform call.  The last two constructors
    stand for the interrupt masking the comment in [read] describes
    ([noInterrupts()] / [interrupts()], the [ATOMIC_BLOCK] macro); no
    function of the driver issues them. *)
Inductive event : Set :=
| DigitalWrite (pin : DigitalPin) (level : Z)
| DigitalRead (pin : DigitalPin) (level : Z)
| WaitMicros (us : Z)
| Pause (ms : Z)
| RunningTime (ms : Z)
| DisableInterrupts
| RestoreInterrupts.

#[global] Instance event_eq_dec : EqDecision event.
Proof. solve_decision. Defined.

Definition trace : Set := list event.

(** The module-level variables of [namespace HX711], followed by the
    outside world: the levels successive [digitalReadPin] calls will see
    and the values successive [runningTime] calls will return. *)
Record World : Type := mkWorld {
  PD_SCK : DigitalPin;
  DOUT : DigitalPin;
  GAIN : Z;
  OFFSET : number;
  SCALE : number;
  CAL_RATIO : number;
  pin_script : list Z;
  time_script : list Z
}.

(** The variables as they are initialised at lines 9-14. *)
Definition initial (levels times : list Z) : World :=
  mkWorld P0 P8 0 0%float 1%float 1%float levels times.

Definition with_pins (dout sck : DigitalPin) (w : World) : World :=
  mkWorld sck dout (GAIN w) (OFFSET w) (SCALE w) (CAL_RATIO w)
          (pin_script w) (time_script w).
Definition with_GAIN (g : Z) (w : World) : World :=
  mkWorld (PD_SCK w) (DOUT w) g (OFFSET w) (SCALE w) (CAL_RATIO w)
          (pin_script w) (time_script w).
Definition with_OFFSET (x : number) (w : World) : World :=
  mkWorld (PD_SCK w) (DOUT w) (GAIN w) x (SCALE w) (CAL_RATIO w)
          (pin_script w) (time_script w).
Definition with_SCALE (x : number) (w : World) : World :=
  mkWorld (PD_SCK w) (DOUT w) (GAIN w) (OFFSET w) x (CAL_RATIO w)
          (pin_script w) (time_script w).
Definition with_CAL_RATIO (x : number) (w : World) : World :=
  mkWorld (PD_SCK w) (DOUT w) (GAIN w) (OFFSET w) (SCALE w) x
          (pin_script w) (time_script w).
Definition with_pin_script (l : list Z) (w : World) : World :=
  mkWorld (PD_SCK w) (DOUT w) (GAIN w) (OFFSET w) (SCALE w) (CAL_RATIO w)
          l (time_script w).
Definition with_time_script (l : list Z) (w : World) : World :=
  mkWorld (PD_SCK w) (DOUT w) (GAIN w) (OFFSET w) (SCALE w) (CAL_RATIO w)
          (pin_script w) l.

(** ** The driver monad *)

(** A call runs from a world and, when it returns, gives its result, the
    world it leaves and the platform calls it made.  [None] is a call that
    has not returned when the scripted samples are used up (the busy
    loops of the driver have no other way out). *)
Definition Driver (A : Type) : Type := World -> option (A * World * trace).

#[global] Instance Driver_ret : MRet Driver :=
  fun A (a : A) w => Some (a, w, []).

#[global] Instance Driver_bind : MBind Driver :=
  fun A B (f : A -> Driver B) (m : Driver A) w =>
    match m w with
    | None => None
    | Some (a, w1, t1) =>
        match f a w1 with
        | None => None
        | Some (b, w2, t2) => Some (b, w2, t1 ++ t2)
        end
    end.

Definition blocked {A : Type} : Driver A := fun _ => None.
Definition gets {A : Type} (f : World -> A) : Driver A :=
  fun w => Some (f w, w, []).
Definition modify (f : World -> World) : Driver unit :=
  fun w => Some (tt, f w, []).
Definition emit (e : event) : Driver unit :=
  fun w => Some (tt, w, [e]).

(** [pins.digitalReadPin(pin)]: the next level of the script. *)
Definition digitalReadPin (pin : DigitalPin) : Driver Z :=
  fun w =>
    match pin_script w with
    | [] => None
    | level :: rest => Some (level, with_pin_script rest w, [DigitalRead pin level])
    end.

(** [pins.digitalWritePin(pin, level)] *)
Definition digitalWritePin (pin : DigitalPin) (level : Z) : Driver unit :=
  emit (DigitalWrite pin level).

(** [control.waitMicros(us)] *)
Definition waitMicros (us : Z) : Driver unit := emit (WaitMicros us).

(** [basic.pause(ms)] *)
Definition pause (ms : Z) : Driver unit := emit (Pause ms).

(** [input.runningTime()]: the next value of the clock script. *)
Definition runningTime : Driver Z :=
  fun w =>
    match time_script w with
    | [] => None
    | t :: rest => Some (t, with_time_script rest w, [RunningTime t])
    end.

(** [for (i = 0; i < bound; i++) body], the loop state threaded through
    the body: with an integer bound the body runs [max 0 bound] times, for
    [i = 0, 1, ...]. *)
Fixpoint for_range {S : Type} (n : nat) (i : Z)
    (body : Z -> S -> Driver S) (s : S) : Driver S :=
  match n with
  | O => mret s
  | Datatypes.S n' => s' ← body i s; for_range n' (i + 1) body s'
  end.

Definition for_lt {S : Type} (bound : Z) (body : Z -> S -> Driver S) (s : S)
    : Driver S :=
  for_range (Z.to_nat bound) 0 body s.

(** ** The driver: conversion protocol *)

Module HX711.

(** [is_ready] (line 35) *)
Definition is_ready : Driver bool :=
  dout ← gets DOUT;
  level ← digitalReadPin dout;
  mret (level =? 0).

(** [shiftInSlow] (line 55): the body of its loop (lines 60-65), then the
    function. *)
Definition shift_bit (bitOrder i value : Z) : Driver Z :=
  sck ← gets PD_SCK;
  digitalWritePin sck 1;;
  waitMicros 1;;
  dout ← gets DOUT;
  level ← digitalReadPin dout;
  let value :=
    if bitOrder =? 0 then or32 value (shl32 level i)
    else or32 value (shl32 level (7 - i)) in
  sck ← gets PD_SCK;
  digitalWritePin sck 0;;
  waitMicros 1;;
  mret value.

Definition shiftInSlow (bitOrder : Z) : Driver Z :=
  let value := 0 in
  for_lt 8 (shift_bit bitOrder) value.

(** [wait_ready] (line 128): [while (!is_ready()) basic.pause(delay_ms)].
    Every turn of the loop takes one level from the script, so one turn
    more than the script is long is all the loop can make. *)
Fixpoint wait_ready_loop (fuel : nat) (delay_ms : Z) : Driver unit :=
  match fuel with
  | O => blocked
  | Datatypes.S fuel' =>
      ready ← is_ready;
      if negb ready then pause delay_ms;; wait_ready_loop fuel' delay_ms
      else mret tt
  end.

Definition wait_ready (delay_ms : Z) : Driver unit :=
  left ← gets pin_script;
  wait_ready_loop (Datatypes.S (length left)) delay_ms.

(** One turn of the loop of lines 108-113. *)
Definition gain_pulse_step (i : Z) (_ : unit) : Driver unit :=
  sck ← gets PD_SCK;
  digitalWritePin sck 1;;
  waitMicros 1;;
  sck ← gets PD_SCK;
  digitalWritePin sck 0;;
  waitMicros 1.

(** Lines 116-123: the filler byte and the 32-bit value. *)
Definition sign_extend (data : list Z) : Z :=
  let filler :=
    if negb (and32 (data !!! 2%nat) 128 =? 0) then 255 else 0 in
  or32 (or32 (or32 (shl32 filler 24) (shl32 (data !!! 2%nat) 16))
             (shl32 (data !!! 1%nat) 8))
       (data !!! 0%nat).

(** [read] (line 72) *)
Definition read : Driver Z :=
  wait_ready 0;;
  let data : list Z := [0; 0; 0] in
  d ← shiftInSlow 1; let data := <[2%nat := d]> data in
  d ← shiftInSlow 1; let data := <[1%nat := d]> data in
  d ← shiftInSlow 1; let data := <[0%nat := d]> data in
  gain ← gets GAIN;
  for_lt gain gain_pulse_step tt;;
  let value := sign_extend data in
  mret value.

(** [set_gain] (line 39) *)
Definition set_gain (gain : Z) : Driver unit :=
  (if gain =? 128 then modify (with_GAIN 1)
   else if gain =? 64 then modify (with_GAIN 3)
   else if gain =? 32 then modify (with_GAIN 2)
   else mret tt);;
  sck ← gets PD_SCK;
  digitalWritePin sck 0;;
  read;;
  mret tt.

(** [begin] (line 28) *)
Definition begin (pinDOUT pinPD_SCK : DigitalPin) : Driver unit :=
  modify (with_pins pinDOUT pinPD_SCK);;
  set_gain 128.

(** [wait_ready_retry] (line 137).  [count] goes up by one per turn, so
    [retries] turns are all the loop can make. *)
Fixpoint wait_ready_retry_loop (fuel : nat) (retries delay_ms count : Z)
    : Driver bool :=
  if count <? retries then
    match fuel with
    | O => blocked
    | Datatypes.S fuel' =>
        ready ← is_ready;
        if (ready : bool) then mret true
        else
          pause delay_ms;;
          wait_ready_retry_loop fuel' retries delay_ms (count + 1)
    end
  else mret false.

Definition wait_ready_retry (retries delay_ms : Z) : Driver bool :=
  let count := 0 in
  wait_ready_retry_loop (Z.to_nat retries) retries delay_ms count.

(** [wait_ready_timeout] (line 151).  Every turn of the loop takes one
    value from the clock script. *)
Fixpoint wait_ready_timeout_loop (fuel : nat) (timeout delay_ms millisStarted : Z)
    : Driver bool :=
  match fuel with
  | O => blocked
  | Datatypes.S fuel' =>
      now ← runningTime;
      if now - millisStarted <? timeout then
        ready ← is_ready;
        if (ready : bool) then mret true
        else
          pause delay_ms;;
          wait_ready_timeout_loop fuel' timeout delay_ms millisStarted
      else mret false
  end.

Definition wait_ready_timeout (timeout delay_ms : Z) : Driver bool :=
  millisStarted ← runningTime;
  left ← gets time_script;
  wait_ready_timeout_loop (Datatypes.S (length left)) timeout delay_ms millisStarted.

(** ** The driver: calibration and units *)

(** [read_average] (line 166): the body of its loop, then the function. *)
Definition add_sample (i : Z) (sum : number) : Driver number :=
  v ← read;
  let sum := (sum + number_of_Z v)%float in
  pause 0;;
  mret sum.

Definition read_average (times : Z) : Driver number :=
  let sum := 0%float in
  sum ← for_lt times add_sample sum;
  mret (sum / number_of_Z times)%float.

(** [get_value] (line 178) *)
Definition get_value (times : Z) : Driver number :=
  avg ← read_average times;
  offset ← gets OFFSET;
  mret (avg - offset)%float.

(** [calibrate] (line 184) *)
Definition calibrate (weight : number) : Driver unit :=
  v ← get_value 10;
  scale ← gets SCALE;
  modify (with_CAL_RATIO (weight / (v / scale))%float).

(** [get_units] (line 190) *)
Definition get_units (times : Z) : Driver number :=
  let valor := 0%float in
  v ← get_value times;
  ratio ← gets CAL_RATIO;
  scale ← gets SCALE;
  let valor := (v * ratio / scale)%float in
  mret valor.

(** [set_scale], [get_scale], [set_offset], [get_offset] (lines 216-236) *)
Definition set_scale (scale : number) : Driver unit := modify (with_SCALE scale).
Definition get_scale : Driver number := gets SCALE.
Definition set_offset (offset : number) : Driver unit := modify (with_OFFSET offset).
Definition get_offset : Driver number := gets OFFSET.

(** [tare] (line 208) *)
Definition tare (times : Z) : Driver unit :=
  let sum := 0%float in
  sum ← read_average times;
  set_offset sum.

(** [power_up] (line 240) and [power_down] (line 246) *)
Definition power_up : Driver unit :=
  sck ← gets PD_SCK; digitalWritePin sck 0.

Definition power_down : Driver unit :=
  sck ← gets PD_SCK; digitalWritePin sck 0;;
  sck ← gets PD_SCK; digitalWritePin sck 1.

End HX711.

Import HX711.

(** ** Vocabulary of the statements *)

(** One data bit: clock high, hold, sample, clock low, hold. *)
Definition bit_cycle (sck dout : DigitalPin) (level : Z) : trace :=
  [DigitalWrite sck 1; WaitMicros 1; DigitalRead dout level;
   DigitalWrite sck 0; WaitMicros 1].

(** One gain pulse: clock high, hold, clock low, hold. *)
Definition gain_pulse (sck : DigitalPin) : trace :=
  [DigitalWrite sck 1; WaitMicros 1; DigitalWrite sck 0; WaitMicros 1].

(** [n] gain pulses in a row. *)
Definition pulse_train (sck : DigitalPin) (n : nat) : trace :=
  concat (replicate n (gain_pulse sck)).

(** The readiness wait: a pause after every level that is not low, up to
    the first low one. *)
Definition wait_trace (dout : DigitalPin) (delay_ms : Z) (busy : list Z) : trace :=
  flat_map (fun level => [DigitalRead dout level; Pause delay_ms]) busy
    ++ [DigitalRead dout 0].

(** The value [shiftInSlow]'s loop builds from the levels it samples. *)
Fixpoint shift_bits (bitOrder i value : Z) (levels : list Z) : Z :=
  match levels with
  | [] => value
  | level :: rest =>
      shift_bits bitOrder (i + 1)
        (if bitOrder =? 0 then or32 value (shl32 level i)
         else or32 value (shl32 level (7 - i)))
        rest
  end.

(** The script up to its first low level, and what follows that level. *)
Fixpoint split_ready (script : list Z) : option (list Z * list Z) :=
  match script with
  | [] => None
  | level :: rest =>
      if level =? 0 then Some ([], rest)
      else match split_ready rest with
           | Some (busy, rest') => Some (level :: busy, rest')
           | None => None
           end
  end.

(** The three bytes [read] shifts in from the 24 levels that follow the
    ready level, as it stores them: [data[0]] is the last one read. *)
Definition data_bytes (levels : list Z) : list Z :=
  [shift_bits 1 0 0 (take 8 (drop 16 levels));
   shift_bits 1 0 0 (take 8 (drop 8 levels));
   shift_bits 1 0 0 (take 8 levels)].

(** The platform calls of one [read]: the readiness wait, the 24 data
    bits, then as many gain pulses as [GAIN] says. *)
Definition read_trace (w : World) (busy levels : list Z) : trace :=
  wait_trace (DOUT w) 0 busy
    ++ flat_map (bit_cycle (PD_SCK w) (DOUT w)) levels
    ++ pulse_train (PD_SCK w) (Z.to_nat (GAIN w)).

(** A level [digitalReadPin] can return. *)
Definition is_bit (level : Z) : Prop := level = 0 \/ level = 1.

(** The unsigned value of a sequence of bits, most significant first. *)
Definition unsigned_msb_first (bits : list Z) : Z :=
  fold_left (fun acc b => 2 * acc + b) bits 0.

(** The signed reading of a [width]-bit pattern. *)
Definition twos_complement (width u : Z) : Z :=
  if u <? 2 ^ (width - 1) then u else u - 2 ^ width.

(** A level [is_ready] takes for "not ready". *)
Definition busy_level (level : Z) : Prop := level <> 0.

(** The levels a trace writes to the pin [sck], in order. *)
Definition clock_writes (sck : DigitalPin) (tr : trace) : list Z :=
  flat_map (fun e =>
              match e with
              | DigitalWrite pin level => if decide (pin = sck) then [level] else []
              | _ => []
              end) tr.

(** The level the pin [sck] is left at: the last one written to it. *)
Definition clock_level (sck : DigitalPin) (tr : trace) : option Z :=
  last (clock_writes sck tr).

(** [w'] has the variables of [w]: only the scripts may have advanced. *)
Definition same_vars (w w' : World) : Prop :=
  PD_SCK w' = PD_SCK w /\ DOUT w' = DOUT w /\ GAIN w' = GAIN w
  /\ OFFSET w' = OFFSET w /\ SCALE w' = SCALE w /\ CAL_RATIO w' = CAL_RATIO w.

(** A computation that leaves the variables alone. *)
Definition keeps_vars {A : Type} (m : Driver A) : Prop :=
  forall w a w' t, m w = Some (a, w', t) -> same_vars w w'.

(** The 24 bits of 0x7FFFFF, most significant first. *)
Definition bits_7FFFFF : list Z := 0 :: replicate 23 1.

(** The exported functions of the namespace, as a client calls them. *)
Inductive call : Type :=
| CallBegin (pinDOUT pinPD_SCK : DigitalPin)
| CallIsReady
| CallSetGain (gain : Z)
| CallShiftInSlow (bitOrder : Z)
| CallRead
| CallWaitReady (delay_ms : Z)
| CallWaitReadyRetry (retries delay_ms : Z)
| CallWaitReadyTimeout (timeout delay_ms : Z)
| CallReadAverage (times : Z)
| CallGetValue (times : Z)
| CallCalibrate (weight : number)
| CallGetUnits (times : Z)
| CallTare (times : Z)
| CallSetScale (scale : number)
| CallGetScale
| CallSetOffset (offset : number)
| CallGetOffset
| CallPowerUp
| CallPowerDown.

(** A call, its result dropped. *)
Definition perform (c : call) : Driver unit :=
  match c with
  | CallBegin pinDOUT pinPD_SCK => begin pinDOUT pinPD_SCK
  | CallIsReady => is_ready;; mret tt
  | CallSetGain gain => set_gain gain
  | CallShiftInSlow bitOrder => shiftInSlow bitOrder;; mret tt
  | CallRead => read;; mret tt
  | CallWaitReady delay_ms => wait_ready delay_ms
  | CallWaitReadyRetry retries delay_ms => wait_ready_retry retries delay_ms;; mret tt
  | CallWaitReadyTimeout timeout delay_ms =>
      wait_ready_timeout timeout delay_ms;; mret tt
  | CallReadAverage times => read_average times;; mret tt
  | CallGetValue times => get_value times;; mret tt
  | CallCalibrate weight => calibrate weight
  | CallGetUnits times => get_units times;; mret tt
  | CallTare times => tare times
  | CallSetScale scale => set_scale scale
  | CallGetScale => get_scale;; mret tt
  | CallSetOffset offset => set_offset offset
  | CallGetOffset => get_offset;; mret tt
  | CallPowerUp => power_up
  | CallPowerDown => power_down
  end.

(** A sequence of calls, one after the other. *)
Fixpoint perform_all (cs : list call) : Driver unit :=
  match cs with
  | [] => mret tt
  | c :: cs' => perform c;; perform_all cs'
  end.

(** The pulse count a selector stands for, when it is one of the three
    the [switch] of [set_gain] knows. *)
Definition pulses_of_gain (gain : Z) : option Z :=
  if gain =? 128 then Some 1
  else if gain =? 64 then Some 3
  else if gain =? 32 then Some 2
  else None.

(** The pulse count a call records, if it records one: [begin] goes
    through [set_gain(128)]. *)
Definition selects (c : call) : option Z :=
  match c with
  | CallBegin _ _ => Some 1
  | CallSetGain gain => pulses_of_gain gain
  | _ => None
  end.

(** [w'] has the pins and the pulse count of [w]. *)
Definition same_selector (w w' : World) : Prop :=
  PD_SCK w' = PD_SCK w /\ DOUT w' = DOUT w /\ GAIN w' = GAIN w.

(** C9, as the specification states it: whatever calls have been made
    since start-up, the pulse count on record is one of 1, 3, 2. *)
Definition pulse_count_always_selected : Prop :=
  forall (levels times : list Z) (cs : list call) (w : World) (t : trace),
    perform_all cs (initial levels times) = Some (tt, w, t) ->
    In (GAIN w) [1; 3; 2].

(** Does every pin write of the trace happen while interrupts are
    masked?  [masked] is the state the trace starts in. *)
Fixpoint writes_masked (masked : bool) (tr : trace) : bool :=
  match tr with
  | [] => true
  | DisableInterrupts :: tr' => writes_masked true tr'
  | RestoreInterrupts :: tr' => writes_masked false tr'
  | DigitalWrite _ _ :: tr' => masked && writes_masked masked tr'
  | _ :: tr' => writes_masked masked tr'
  end.

(** C3, as the specification states it: a [read] entered with interrupts
    enabled makes all its clock writes with interrupts masked. *)
Definition read_masks_interrupts : Prop :=
  forall (w w' : World) (v : Z) (tr : trace),
    read w = Some (v, w', tr) -> writes_masked false tr = true.

(** The calls that change the interrupt state. *)
Definition touches_interrupts (e : event) : bool :=
  match e with
  | DisableInterrupts | RestoreInterrupts => true
  | _ => false
  end.

(** Pin writes, pin reads and busy waits: the calls that do not give the
    scheduler a turn. *)
Definition bit_bang (e : event) : bool :=
  match e with
  | DigitalWrite _ _ | DigitalRead _ _ | WaitMicros _ => true
  | _ => false
  end.

(** A readiness check shows in the trace as a read of the data line. *)
Definition is_check (e : event) : bool :=
  match e with DigitalRead _ _ => true | _ => false end.

(** The number of readiness checks a trace holds. *)
Definition checks (tr : trace) : nat := length (List.filter is_check tr).

(** A check that finds the device busy, and the pause after it. *)
Definition busy_checks (dout : DigitalPin) (delay_ms : Z) (busy : list Z) : trace :=
  flat_map (fun level => [DigitalRead dout level; Pause delay_ms]) busy.

(** [n] calls of [read] in a row, and the values they return. *)
Fixpoint reads (n : nat) : Driver (list Z) :=
  match n with
  | O => mret []
  | S n' => v ← read; vs ← reads n'; mret (v :: vs)
  end.

(** The samples added up in the order they were read, from 0. *)
Definition sum_samples (vs : list Z) : number :=
  fold_left (fun sum v => (sum + number_of_Z v)%float) vs 0%float.

(** The arithmetic mean: the sum divided by the number of samples. *)
Definition mean (vs : list Z) : number :=
  (sum_samples vs / number_of_Z (Z.of_nat (length vs)))%float.

(** Ten conversions that all read 0, with the start-up offset and scale:
    the value is zero and the ratio comes out infinite. *)
Definition ten_zero_samples : list Z :=
  concat (replicate 10 (0 :: replicate 24 0)).

(** The platform calls of [read_average(10)] on those samples. *)
Definition ten_zero_trace : trace :=
  concat (replicate 10
            (read_trace (initial [] []) [] (replicate 24 0) ++ [Pause 0])).

(** ** Vocabulary of the further properties *)

(** A change of the world that the conversion protocol cannot see: it
    leaves the pins, the pulse count and the script of levels as they are,
    and it does not matter whether it is made before or after the script
    advances. *)
Definition unseen_by_read (f : World -> World) : Prop :=
  forall w,
    PD_SCK (f w) = PD_SCK w /\ DOUT (f w) = DOUT w /\ GAIN (f w) = GAIN w
    /\ pin_script (f w) = pin_script w
    /\ forall l, with_pin_script l (f w) = f (with_pin_script l w).

(** The outcome of a call, the change [f] made to the world it leaves. *)
Definition then_world {A : Type} (f : World -> World)
    (r : option (A * World * trace)) : option (A * World * trace) :=
  match r with
  | Some (a, w, t) => Some (a, f w, t)
  | None => None
  end.

(** One turn of the loop of [wait_ready_timeout] that finds the device
    busy: the clock is read, then the data line, then comes the pause.
    A round is the time and the level of such a turn. *)
Definition timeout_rounds (dout : DigitalPin) (delay_ms : Z)
    (rounds : list (Z * Z)) : trace :=
  flat_map (fun r => [RunningTime r.1; DigitalRead dout r.2; Pause delay_ms])
    rounds.

(** A round within the time budget that finds the device busy. *)
Definition busy_round (millisStarted timeout : Z) (r : Z * Z) : Prop :=
  r.1 - millisStarted < timeout /\ r.2 <> 0.

(** The calls that assign each of the module-level variables. *)
Definition writes_pins (c : call) : bool :=
  match c with CallBegin _ _ => true | _ => false end.
Definition writes_GAIN (c : call) : bool :=
  match c with CallBegin _ _ | CallSetGain _ => true | _ => false end.
Definition writes_OFFSET (c : call) : bool :=
  match c with CallTare _ | CallSetOffset _ => true | _ => false end.
Definition writes_SCALE (c : call) : bool :=
  match c with CallSetScale _ => true | _ => false end.
Definition writes_CAL_RATIO (c : call) : bool :=
  match c with CallCalibrate _ => true | _ => false end.

(** The number of times a trace raises the pin [sck]. *)
Definition rising_edges (sck : DigitalPin) (tr : trace) : nat :=
  length (List.filter (fun level => level =? 1) (clock_writes sck tr)).

(** * Properties *)

(** ** The monad *)

Lemma bind_run {A B : Type} (m : Driver A) (f : A -> Driver B) (w : World) :
  (m ≫= f) w =
  match m w with
  | None => None
  | Some (a, w1, t1) =>
      match f a w1 with
      | None => None
      | Some (b, w2, t2) => Some (b, w2, t1 ++ t2)
      end
  end.
Proof. reflexivity. Qed.

Lemma bind_Some {A B : Type} (m : Driver A) (f : A -> Driver B) w b w2 t :
  (m ≫= f) w = Some (b, w2, t) <->
  exists a w1 t1 t2,
    m w = Some (a, w1, t1) /\ f a w1 = Some (b, w2, t2) /\ t = t1 ++ t2.
Proof.
  rewrite bind_run. split.
  - destruct (m w) as [[[a w1] t1]|]; [|discriminate].
    destruct (f a w1) as [[[b' w2'] t2]|] eqn:Hf; [|discriminate].
    intros [= -> -> <-]. by exists a, w1, t1, t2.
  - intros (a & w1 & t1 & t2 & -> & -> & ->). reflexivity.
Qed.

(** Unfold the monad and the platform calls down to the match on the
    scripts. *)
Ltac run_driver :=
  unfold mbind, Driver_bind, mret, Driver_ret, gets, modify, digitalWritePin,
    waitMicros, pause, emit, digitalReadPin, runningTime, blocked;
  cbn [fst snd app PD_SCK DOUT GAIN OFFSET SCALE CAL_RATIO pin_script time_script
       with_pins with_GAIN with_OFFSET with_SCALE with_CAL_RATIO
       with_pin_script with_time_script].

Lemma with_pin_script_id (w : World) : with_pin_script (pin_script w) w = w.
Proof. by destruct w. Qed.

(** ** The shift-in loop *)

Lemma shift_bit_run (bitOrder i value : Z) (w : World) :
  shift_bit bitOrder i value w =
  match pin_script w with
  | [] => None
  | level :: rest =>
      Some (if bitOrder =? 0 then or32 value (shl32 level i)
            else or32 value (shl32 level (7 - i)),
            with_pin_script rest w,
            bit_cycle (PD_SCK w) (DOUT w) level)
  end.
Proof.
  unfold shift_bit. run_driver. destruct (pin_script w); reflexivity.
Qed.

Lemma shift_loop_run (bitOrder : Z) (n : nat) :
  forall i value w,
    for_range n i (shift_bit bitOrder) value w =
    if decide (n <= length (pin_script w))%nat then
      Some (shift_bits bitOrder i value (take n (pin_script w)),
            with_pin_script (drop n (pin_script w)) w,
            flat_map (bit_cycle (PD_SCK w) (DOUT w)) (take n (pin_script w)))
    else None.
Proof.
  induction n as [|n IH]; intros i value w.
  - rewrite decide_True by lia. cbn [for_range take shift_bits flat_map].
    rewrite drop_0, with_pin_script_id. reflexivity.
  - cbn [for_range]. rewrite bind_run, shift_bit_run.
    destruct (pin_script w) as [|level rest] eqn:E.
    + rewrite decide_False by (cbn [length]; lia). reflexivity.
    + rewrite IH. cbn [pin_script with_pin_script length].
      destruct (decide (n <= length rest)%nat).
      * rewrite decide_True by lia. reflexivity.
      * rewrite decide_False by lia. reflexivity.
Qed.

Lemma shiftInSlow_run (bitOrder : Z) (w : World) :
  shiftInSlow bitOrder w =
  if decide (8 <= length (pin_script w))%nat then
    Some (shift_bits bitOrder 0 0 (take 8 (pin_script w)),
          with_pin_script (drop 8 (pin_script w)) w,
          flat_map (bit_cycle (PD_SCK w) (DOUT w)) (take 8 (pin_script w)))
  else None.
Proof.
  unfold shiftInSlow, for_lt. change (Z.to_nat 8) with 8%nat.
  rewrite shift_loop_run. reflexivity.
Qed.

(** ** The readiness wait *)

Lemma is_ready_run (w : World) :
  is_ready w =
  match pin_script w with
  | [] => None
  | level :: rest =>
      Some (level =? 0, with_pin_script rest w, [DigitalRead (DOUT w) level])
  end.
Proof. unfold is_ready. run_driver. destruct (pin_script w); reflexivity. Qed.

Lemma split_ready_Some (script busy rest : list Z) :
  split_ready script = Some (busy, rest) <->
  script = busy ++ 0 :: rest /\ Forall (fun level => level <> 0) busy.
Proof.
  revert busy. induction script as [|level script IH]; intros busy; cbn.
  - split; [discriminate|]. intros [E _]. by destruct busy.
  - destruct (Z.eqb_spec level 0) as [->|Hne].
    + split.
      * intros [= <- <-]. by split.
      * intros [E Hbusy]. destruct busy as [|b busy]; [by inversion E|].
        inversion E; subst. by inversion Hbusy.
    + destruct (split_ready script) as [[busy' rest']|].
      * split.
        -- intros [= <- <-]. destruct (proj1 (IH busy') eq_refl) as [-> Hb].
           split; [reflexivity|by constructor].
        -- intros [E Hbusy]. destruct busy as [|b busy]; [inversion E; congruence|].
           inversion E; subst. inversion Hbusy; subst.
           assert (Some (busy', rest') = Some (busy, rest)) as [= -> ->]
             by (apply IH; by split).
           reflexivity.
      * split; [discriminate|]. intros [E Hbusy].
        destruct busy as [|b busy]; [inversion E; congruence|].
        inversion E; subst. inversion Hbusy; subst.
        assert (None = Some (busy, rest)) by (apply IH; by split). discriminate.
Qed.

Lemma wait_ready_loop_run (delay_ms : Z) (fuel : nat) :
  forall w,
    (length (pin_script w) < fuel)%nat ->
    wait_ready_loop fuel delay_ms w =
    match split_ready (pin_script w) with
    | Some (busy, rest) =>
        Some (tt, with_pin_script rest w, wait_trace (DOUT w) delay_ms busy)
    | None => None
    end.
Proof.
  induction fuel as [|fuel IH]; intros w Hlen; [lia|].
  cbn [wait_ready_loop]. rewrite bind_run, is_ready_run.
  destruct (pin_script w) as [|level script] eqn:E; [reflexivity|].
  cbn [split_ready]. destruct (Z.eqb_spec level 0) as [->|Hne]; cbn [negb].
  - reflexivity.
  - rewrite bind_run. unfold pause at 1, emit at 1.
    rewrite IH by (cbn [pin_script with_pin_script length] in *; lia).
    cbn [pin_script with_pin_script DOUT].
    destruct (split_ready script) as [[busy rest]|]; reflexivity.
Qed.

Lemma wait_ready_run (delay_ms : Z) (w : World) :
  wait_ready delay_ms w =
  match split_ready (pin_script w) with
  | Some (busy, rest) =>
      Some (tt, with_pin_script rest w, wait_trace (DOUT w) delay_ms busy)
  | None => None
  end.
Proof.
  unfold wait_ready. rewrite bind_run. unfold gets at 1.
  rewrite wait_ready_loop_run by lia.
  destruct (split_ready (pin_script w)) as [[busy rest]|]; reflexivity.
Qed.

(** ** The gain pulses *)

Lemma gain_pulse_step_run (i : Z) (w : World) :
  gain_pulse_step i tt w = Some (tt, w, gain_pulse (PD_SCK w)).
Proof. reflexivity. Qed.

Lemma gain_loop_run (n : nat) :
  forall i w,
    for_range n i gain_pulse_step tt w = Some (tt, w, pulse_train (PD_SCK w) n).
Proof.
  induction n as [|n IH]; intros i w; [reflexivity|].
  cbn [for_range]. rewrite bind_run, gain_pulse_step_run, IH. reflexivity.
Qed.

(** ** [read], in one equation *)

Lemma take_drop_take {A : Type} (n m k : nat) (l : list A) :
  (m + n <= k)%nat -> take n (drop m (take k l)) = take n (drop m l).
Proof.
  intros H. rewrite !take_drop_commute, take_take.
  by replace ((m + n) `min` k)%nat with (m + n)%nat by lia.
Qed.

Lemma take_24_split {A : Type} (l : list A) :
  take 24 l = take 8 l ++ take 8 (drop 8 l) ++ take 8 (drop 16 l).
Proof.
  change (take 24 l) with (take (8 + 16) l).
  rewrite <- (take_take_drop l 8 16). f_equal.
  change (take 16 (drop 8 l)) with (take (8 + 8) (drop 8 l)).
  by rewrite <- (take_take_drop (drop 8 l) 8 8), drop_drop.
Qed.

Lemma data_store (d2 d1 d0 : Z) :
  <[0%nat := d0]> (<[1%nat := d1]> (<[2%nat := d2]> [0; 0; 0])) = [d0; d1; d2].
Proof. reflexivity. Qed.

Lemma read_run (w : World) :
  read w =
  match split_ready (pin_script w) with
  | None => None
  | Some (busy, rest) =>
      if decide (24 <= length rest)%nat then
        Some (sign_extend (data_bytes (take 24 rest)),
              with_pin_script (drop 24 rest) w,
              read_trace w busy (take 24 rest))
      else None
  end.
Proof.
  unfold read. rewrite bind_run, wait_ready_run.
  destruct (split_ready (pin_script w)) as [[busy rest]|]; [|reflexivity].
  rewrite bind_run, shiftInSlow_run. cbn [pin_script with_pin_script PD_SCK DOUT].
  destruct (decide (8 <= length rest)%nat) as [H1|H1];
    [|rewrite decide_False by lia; reflexivity].
  rewrite bind_run, shiftInSlow_run. cbn [pin_script with_pin_script PD_SCK DOUT].
  rewrite length_drop.
  destruct (decide (8 <= length rest - 8)%nat) as [H2|H2];
    [|rewrite decide_False by lia; reflexivity].
  rewrite bind_run, shiftInSlow_run. cbn [pin_script with_pin_script PD_SCK DOUT].
  rewrite !length_drop.
  destruct (decide (8 <= length rest - 8 - 8)%nat) as [H3|H3];
    [|rewrite decide_False by lia; reflexivity].
  rewrite decide_True by lia.
  rewrite bind_run. unfold gets at 1. rewrite bind_run. unfold for_lt.
  rewrite gain_loop_run. cbn [GAIN PD_SCK with_pin_script].
  unfold mret, Driver_ret, read_trace, data_bytes.
  rewrite !drop_drop, !(take_drop_take 8) by lia.
  rewrite take_take. change (8 `min` 24)%nat with 8%nat.
  rewrite data_store, (take_24_split rest), !flat_map_app, <- !app_assoc.
  rewrite !app_nil_r. reflexivity.
Qed.

(** ** 32-bit arithmetic of [read] *)

Lemma to_int32_small (z : Z) : - 2 ^ 31 <= z < 2 ^ 31 -> to_int32 z = z.
Proof. intros H. unfold to_int32. rewrite Z.mod_small; lia. Qed.

Lemma land_disjoint (hi lo k : Z) :
  0 <= k -> 0 <= lo < 2 ^ k -> Z.land (hi * 2 ^ k) lo = 0.
Proof.
  intros Hk Hlo. apply Z.bits_inj'. intros n Hn.
  rewrite Z.land_spec, Z.bits_0.
  destruct (Z.lt_ge_cases n k) as [Hlt|Hge].
  - by rewrite Z.mul_pow2_bits_low.
  - assert (Z.testbit lo n = false) as ->; [|apply andb_false_r].
    destruct (Z.eq_dec lo 0) as [->|Hne]; [apply Z.bits_0|].
    apply Z.bits_above_log2; [lia|].
    assert (Z.log2 lo < k) by (apply Z.log2_lt_pow2; lia). lia.
Qed.

Lemma lor_disjoint (hi lo k : Z) :
  0 <= k -> 0 <= lo < 2 ^ k -> Z.lor (hi * 2 ^ k) lo = hi * 2 ^ k + lo.
Proof.
  intros Hk Hlo. pose proof (Z.add_lor_land (hi * 2 ^ k) lo) as H.
  rewrite land_disjoint in H by assumption. lia.
Qed.

Lemma or32_disjoint (hi lo k : Z) :
  0 <= k -> 0 <= lo < 2 ^ k -> lo < 2 ^ 31 ->
  - 2 ^ 31 <= hi * 2 ^ k -> hi * 2 ^ k + lo < 2 ^ 31 ->
  or32 (hi * 2 ^ k) lo = hi * 2 ^ k + lo.
Proof.
  intros Hk Hlo Hlo' H1 H2. unfold or32.
  rewrite (to_int32_small (hi * 2 ^ k)), (to_int32_small lo) by lia.
  rewrite lor_disjoint by assumption. apply to_int32_small. lia.
Qed.

Lemma shl32_small (a n : Z) :
  0 <= n < 32 -> - 2 ^ 31 <= a * 2 ^ n < 2 ^ 31 -> shl32 a n = a * 2 ^ n.
Proof.
  intros Hn Ha. unfold shl32.
  assert (- 2 ^ 31 <= a < 2 ^ 31) by nia.
  rewrite (to_int32_small a), Z.mod_small, Z.shiftl_mul_pow2 by lia.
  by apply to_int32_small.
Qed.

Lemma and32_128 (d : Z) :
  0 <= d < 256 -> and32 d 128 = if d <? 128 then 0 else 128.
Proof.
  intros Hd. unfold and32.
  rewrite (to_int32_small d), (to_int32_small 128) by lia.
  destruct (Z.ltb_spec d 128) as [Hlt|Hge].
  - rewrite Z.land_comm. change 128 with (1 * 2 ^ 7).
    rewrite (land_disjoint 1 d 7) by lia. reflexivity.
  - replace d with (Z.lor (1 * 2 ^ 7) (d - 128)) at 1
      by (rewrite lor_disjoint; lia).
    rewrite Z.land_lor_distr_l, (Z.land_comm (d - 128)).
    change (Z.land 128 (d - 128)) with (Z.land (1 * 2 ^ 7) (d - 128)).
    rewrite (land_disjoint 1 (d - 128) 7) by lia. reflexivity.
Qed.

Lemma sign_extend_bytes (d2 d1 d0 : Z) :
  0 <= d2 < 256 -> 0 <= d1 < 256 -> 0 <= d0 < 256 ->
  sign_extend [d0; d1; d2] = twos_complement 24 (d2 * 65536 + d1 * 256 + d0).
Proof.
  intros H2 H1 H0. unfold sign_extend, twos_complement.
  change ([d0; d1; d2] !!! 2%nat) with d2.
  change ([d0; d1; d2] !!! 1%nat) with d1.
  change ([d0; d1; d2] !!! 0%nat) with d0.
  rewrite and32_128 by assumption.
  rewrite (shl32_small d2 16), (shl32_small d1 8) by lia.
  destruct (Z.ltb_spec d2 128) as [Hlt|Hge]; cbn [Z.eqb negb].
  - change (shl32 0 24) with (0 * 2 ^ 24).
    rewrite (or32_disjoint 0 (d2 * 2 ^ 16) 24) by lia.
    rewrite Z.mul_0_l, Z.add_0_l.
    rewrite (or32_disjoint d2 (d1 * 2 ^ 8) 16) by lia.
    replace (d2 * 2 ^ 16 + d1 * 2 ^ 8) with ((d2 * 256 + d1) * 2 ^ 8) by lia.
    rewrite or32_disjoint by lia.
    destruct (Z.ltb_spec (d2 * 65536 + d1 * 256 + d0) (2 ^ (24 - 1))); lia.
  - change (shl32 255 24) with (-1 * 2 ^ 24).
    rewrite (or32_disjoint (-1) (d2 * 2 ^ 16) 24) by lia.
    replace (-1 * 2 ^ 24 + d2 * 2 ^ 16) with ((d2 - 256) * 2 ^ 16) by lia.
    rewrite (or32_disjoint (d2 - 256) (d1 * 2 ^ 8) 16) by lia.
    replace ((d2 - 256) * 2 ^ 16 + d1 * 2 ^ 8)
      with (((d2 - 256) * 256 + d1) * 2 ^ 8) by lia.
    rewrite or32_disjoint by lia.
    destruct (Z.ltb_spec (d2 * 65536 + d1 * 256 + d0) (2 ^ (24 - 1))); lia.
Qed.

(** ** Bits to bytes to the sample *)

Lemma fold_msb_acc (bits : list Z) :
  forall acc,
    fold_left (fun acc b => 2 * acc + b) bits acc =
    acc * 2 ^ Z.of_nat (length bits) + unsigned_msb_first bits.
Proof.
  unfold unsigned_msb_first.
  induction bits as [|b bits IH]; intros acc; cbn [fold_left length].
  - change (2 ^ Z.of_nat 0) with 1. lia.
  - rewrite IH, (IH (2 * 0 + b)), Nat2Z.inj_succ, Z.pow_succ_r by lia. lia.
Qed.

Lemma unsigned_msb_first_cons (b : Z) (bits : list Z) :
  unsigned_msb_first (b :: bits) =
  b * 2 ^ Z.of_nat (length bits) + unsigned_msb_first bits.
Proof.
  unfold unsigned_msb_first at 1. cbn [fold_left].
  rewrite fold_msb_acc. lia.
Qed.

Lemma unsigned_msb_first_app (hi lo : list Z) :
  unsigned_msb_first (hi ++ lo) =
  unsigned_msb_first hi * 2 ^ Z.of_nat (length lo) + unsigned_msb_first lo.
Proof.
  unfold unsigned_msb_first at 1. rewrite fold_left_app, fold_msb_acc.
  reflexivity.
Qed.

Lemma unsigned_msb_first_range (bits : list Z) :
  Forall is_bit bits ->
  0 <= unsigned_msb_first bits < 2 ^ Z.of_nat (length bits).
Proof.
  induction 1 as [|b bits Hb _ IH].
  - cbn. lia.
  - rewrite unsigned_msb_first_cons. cbn [length].
    rewrite Nat2Z.inj_succ, Z.pow_succ_r by lia.
    destruct Hb as [-> | ->]; lia.
Qed.

(** With levels 0 and 1 and [bitOrder = 1], the eight turns of the loop
    build the byte most significant bit first. *)
Lemma shift_bits_msb (levels : list Z) :
  length levels = 8%nat -> Forall is_bit levels ->
  shift_bits 1 0 0 levels = unsigned_msb_first levels.
Proof.
  intros Hlen Hbits.
  do 8 (destruct levels as [|? levels]; [discriminate|]).
  destruct levels; [|discriminate].
  repeat match goal with
         | H : Forall _ (_ :: _) |- _ => inversion H; clear H; subst
         end.
  repeat match goal with
         | H : is_bit _ |- _ => destruct H as [-> | ->]
         end; vm_compute; reflexivity.
Qed.

Lemma decode_bits (bits : list Z) :
  length bits = 24%nat -> Forall is_bit bits ->
  sign_extend (data_bytes bits) =
    twos_complement 24
      (unsigned_msb_first (take 8 bits) * 65536
       + unsigned_msb_first (take 8 (drop 8 bits)) * 256
       + unsigned_msb_first (take 8 (drop 16 bits)))
  /\ unsigned_msb_first bits =
       unsigned_msb_first (take 8 bits) * 65536
       + unsigned_msb_first (take 8 (drop 8 bits)) * 256
       + unsigned_msb_first (take 8 (drop 16 bits))
  /\ 0 <= unsigned_msb_first bits < 2 ^ 24.
Proof.
  intros Hlen Hbits.
  assert (forall n, (n + 8 <= 24)%nat ->
            length (take 8 (drop n bits)) = 8%nat
            /\ Forall is_bit (take 8 (drop n bits))) as Hsub.
  { intros n Hn. split.
    - rewrite length_take, length_drop. lia.
    - by apply Forall_take, Forall_drop. }
  destruct (Hsub 0%nat ltac:(lia)) as [L2 B2].
  destruct (Hsub 8%nat ltac:(lia)) as [L1 B1].
  destruct (Hsub 16%nat ltac:(lia)) as [L0 B0].
  rewrite drop_0 in L2, B2.
  pose proof (unsigned_msb_first_range _ B2) as R2.
  pose proof (unsigned_msb_first_range _ B1) as R1.
  pose proof (unsigned_msb_first_range _ B0) as R0.
  rewrite L2 in R2. rewrite L1 in R1. rewrite L0 in R0.
  change (2 ^ Z.of_nat 8) with 256 in *.
  split; [|split].
  - unfold data_bytes. rewrite !shift_bits_msb by assumption.
    by apply sign_extend_bytes.
  - rewrite <- (take_drop 24 bits) at 1.
    rewrite (drop_ge bits 24), app_nil_r, take_24_split by lia.
    rewrite !unsigned_msb_first_app, length_app, L1, L0.
    change (2 ^ Z.of_nat (8 + 8)) with 65536.
    change (2 ^ Z.of_nat 8) with 256. lia.
  - pose proof (unsigned_msb_first_range _ Hbits) as R. by rewrite Hlen in R.
Qed.

(** ** [read] on a script, and back *)

Lemma read_from_script (w : World) (busy levels rest : list Z) :
  pin_script w = busy ++ 0 :: levels ++ rest ->
  Forall busy_level busy ->
  length levels = 24%nat ->
  read w = Some (sign_extend (data_bytes levels), with_pin_script rest w,
                 read_trace w busy levels).
Proof.
  intros Hscript Hbusy Hlen. rewrite read_run.
  rewrite (proj2 (split_ready_Some (pin_script w) busy (levels ++ rest)))
    by (split; assumption).
  rewrite decide_True by (rewrite length_app; lia).
  rewrite <- Hlen, take_app_length, drop_app_length. reflexivity.
Qed.

Lemma read_inv (w w' : World) (v : Z) (tr : trace) :
  read w = Some (v, w', tr) ->
  exists busy levels rest,
    pin_script w = busy ++ 0 :: levels ++ rest
    /\ Forall busy_level busy
    /\ length levels = 24%nat
    /\ v = sign_extend (data_bytes levels)
    /\ w' = with_pin_script rest w
    /\ tr = read_trace w busy levels.
Proof.
  rewrite read_run.
  destruct (split_ready (pin_script w)) as [[busy rest]|] eqn:E; [|discriminate].
  apply split_ready_Some in E as [Hscript Hbusy].
  destruct (decide (24 <= length rest)%nat) as [Hlen|]; [|discriminate].
  intros [= <- <- <-].
  exists busy, (take 24 rest), (drop 24 rest).
  rewrite take_drop, length_take. repeat split; try assumption. lia.
Qed.

(** ** The clock line *)

Lemma clock_writes_app (sck : DigitalPin) (t1 t2 : trace) :
  clock_writes sck (t1 ++ t2) = clock_writes sck t1 ++ clock_writes sck t2.
Proof. apply flat_map_app. Qed.

Lemma clock_writes_wait (sck dout : DigitalPin) (delay_ms : Z) (busy : list Z) :
  clock_writes sck (wait_trace dout delay_ms busy) = [].
Proof.
  unfold wait_trace. rewrite clock_writes_app.
  induction busy as [|level busy IH]; [reflexivity|exact IH].
Qed.

Lemma clock_writes_bits (sck dout : DigitalPin) (levels : list Z) :
  clock_writes sck (flat_map (bit_cycle sck dout) levels) =
  flat_map (fun _ => [1; 0]) levels.
Proof.
  induction levels as [|level levels IH]; [reflexivity|].
  cbn [flat_map]. rewrite clock_writes_app, IH.
  unfold clock_writes, bit_cycle. cbn [flat_map app].
  rewrite !decide_True by reflexivity. reflexivity.
Qed.

Lemma clock_writes_pulses (sck : DigitalPin) (n : nat) :
  clock_writes sck (pulse_train sck n) = concat (replicate n [1; 0]).
Proof.
  unfold pulse_train. induction n as [|n IH]; [reflexivity|].
  cbn [replicate concat]. rewrite clock_writes_app, IH.
  unfold clock_writes at 1, gain_pulse. cbn [flat_map app].
  rewrite !decide_True by reflexivity. reflexivity.
Qed.

Lemma last_low_bits {A : Type} (levels : list A) :
  levels <> [] -> last (flat_map (fun _ => [1; 0]) levels) = Some 0.
Proof.
  induction levels as [|a levels IH]; [done|]. intros _.
  destruct levels as [|b levels]; [reflexivity|].
  change (last (1 :: 0 :: flat_map (fun _ => [1; 0]) (b :: levels)) = Some 0).
  rewrite !last_cons, IH by done. reflexivity.
Qed.

Lemma last_low_pulses (l : list Z) (n : nat) :
  last l = Some 0 -> last (l ++ concat (replicate n [1; 0])) = Some 0.
Proof.
  revert l. induction n as [|n IH]; intros l Hl.
  - by rewrite app_nil_r.
  - cbn [replicate concat].
    rewrite (app_assoc l [1; 0]). apply IH.
    rewrite last_app. reflexivity.
Qed.

(** ** What a call leaves alone *)

Lemma same_vars_refl (w : World) : same_vars w w.
Proof. by repeat split. Qed.

Lemma same_vars_trans (w1 w2 w3 : World) :
  same_vars w1 w2 -> same_vars w2 w3 -> same_vars w1 w3.
Proof. unfold same_vars. intros H1 H2. intuition congruence. Qed.

Lemma same_vars_pin_script (l : list Z) (w : World) :
  same_vars w (with_pin_script l w).
Proof. by repeat split. Qed.

Lemma same_vars_time_script (l : list Z) (w : World) :
  same_vars w (with_time_script l w).
Proof. by repeat split. Qed.

Create HintDb frame.
#[global] Hint Resolve same_vars_refl same_vars_pin_script same_vars_time_script : frame.

Lemma keeps_bind {A B : Type} (m : Driver A) (f : A -> Driver B) :
  keeps_vars m -> (forall a, keeps_vars (f a)) -> keeps_vars (m ≫= f).
Proof.
  intros Hm Hf w b w2 t H. apply bind_Some in H as (a & w1 & t1 & t2 & H1 & H2 & _).
  eapply same_vars_trans; [eapply Hm|eapply Hf]; eassumption.
Qed.

Lemma keeps_ret {A : Type} (a : A) : keeps_vars (mret a).
Proof. intros w a' w' t [= _ <- _]. auto with frame. Qed.

Lemma keeps_gets {A : Type} (f : World -> A) : keeps_vars (gets f).
Proof. intros w a' w' t [= _ <- _]. auto with frame. Qed.

Lemma keeps_emit (e : event) : keeps_vars (emit e).
Proof. intros w a' w' t [= _ <- _]. auto with frame. Qed.

Lemma keeps_blocked {A : Type} : keeps_vars (@blocked A).
Proof. intros w a' w' t [=]. Qed.

Lemma keeps_digitalReadPin (pin : DigitalPin) : keeps_vars (digitalReadPin pin).
Proof.
  intros w a w' t. unfold digitalReadPin.
  destruct (pin_script w); [discriminate|]. intros [= _ <- _]. auto with frame.
Qed.

Lemma keeps_runningTime : keeps_vars runningTime.
Proof.
  intros w a w' t. unfold runningTime.
  destruct (time_script w); [discriminate|]. intros [= _ <- _]. auto with frame.
Qed.

Lemma keeps_for_range {S : Type} (body : Z -> S -> Driver S) (n : nat) :
  (forall i s, keeps_vars (body i s)) ->
  forall i s, keeps_vars (for_range n i body s).
Proof.
  intros Hbody. induction n as [|n IH]; intros i s; cbn [for_range].
  - apply keeps_ret.
  - apply keeps_bind; [apply Hbody|]. intros s'. apply IH.
Qed.

(** Break a computation into its binds and close the leaves. *)
Ltac keeps :=
  repeat first
    [ apply keeps_ret | apply keeps_gets | apply keeps_emit | apply keeps_blocked
    | apply keeps_digitalReadPin | apply keeps_runningTime
    | assumption
    | apply keeps_bind; [|intros ?]
    | apply keeps_for_range; intros ? ?
    | match goal with |- keeps_vars (if ?b then _ else _) => destruct b end ].

Lemma keeps_is_ready : keeps_vars is_ready.
Proof. unfold is_ready. keeps. Qed.

Lemma keeps_read : keeps_vars read.
Proof.
  intros w v w' t H.
  apply read_inv in H as (busy & levels & rest & _ & _ & _ & _ & -> & _).
  auto with frame.
Qed.

Lemma keeps_wait_ready_loop (delay_ms : Z) (fuel : nat) :
  keeps_vars (wait_ready_loop fuel delay_ms).
Proof.
  induction fuel as [|fuel IH]; cbn [wait_ready_loop]; [apply keeps_blocked|].
  pose proof keeps_is_ready. unfold pause. keeps.
Qed.

Lemma keeps_wait_ready (delay_ms : Z) : keeps_vars (wait_ready delay_ms).
Proof.
  unfold wait_ready. apply keeps_bind; [apply keeps_gets|].
  intros left. apply keeps_wait_ready_loop.
Qed.

Lemma keeps_shiftInSlow (bitOrder : Z) : keeps_vars (shiftInSlow bitOrder).
Proof.
  unfold shiftInSlow, for_lt, shift_bit, digitalWritePin, waitMicros. keeps.
Qed.

Lemma keeps_wait_ready_retry_loop (retries delay_ms : Z) (fuel : nat) :
  forall count, keeps_vars (wait_ready_retry_loop fuel retries delay_ms count).
Proof.
  pose proof keeps_is_ready.
  induction fuel as [|fuel IH]; intros count; cbn [wait_ready_retry_loop];
    unfold pause; keeps. apply IH.
Qed.

Lemma keeps_wait_ready_timeout_loop (timeout delay_ms start : Z) (fuel : nat) :
  keeps_vars (wait_ready_timeout_loop fuel timeout delay_ms start).
Proof.
  pose proof keeps_is_ready.
  induction fuel as [|fuel IH]; cbn [wait_ready_timeout_loop];
    unfold pause; keeps.
Qed.

Lemma keeps_wait_ready_timeout (timeout delay_ms : Z) :
  keeps_vars (wait_ready_timeout timeout delay_ms).
Proof.
  unfold wait_ready_timeout.
  apply keeps_bind; [apply keeps_runningTime|]. intros start.
  apply keeps_bind; [apply keeps_gets|]. intros left.
  apply keeps_wait_ready_timeout_loop.
Qed.

Lemma keeps_read_average (times : Z) : keeps_vars (read_average times).
Proof.
  pose proof keeps_read.
  unfold read_average, for_lt, add_sample, pause. keeps.
Qed.

Lemma keeps_get_value (times : Z) : keeps_vars (get_value times).
Proof. pose proof (keeps_read_average times). unfold get_value. keeps. Qed.

Lemma keeps_get_units (times : Z) : keeps_vars (get_units times).
Proof. pose proof (keeps_get_value times). unfold get_units. keeps. Qed.

(** ** The signed 24-bit sample *)

Lemma twos_complement_24_range (u : Z) :
  0 <= u < 2 ^ 24 -> - 2 ^ 23 <= twos_complement 24 u <= 2 ^ 23 - 1.
Proof.
  intros Hu. unfold twos_complement. change (24 - 1) with 23.
  destruct (Z.ltb_spec u (2 ^ 23)); lia.
Qed.

(** Bits 23 and up of the sample all repeat bit 23 of the pattern. *)
Lemma twos_complement_24_sign_bits (u i : Z) :
  0 <= u < 2 ^ 24 -> 23 <= i ->
  Z.testbit (twos_complement 24 u) i = Z.testbit u 23.
Proof.
  intros Hu Hi. unfold twos_complement. change (24 - 1) with 23.
  destruct (Z.ltb_spec u (2 ^ 23)) as [Hlt|Hge].
  - assert (forall j, 23 <= j -> Z.testbit u j = false) as Hhigh.
    { intros j Hj. destruct (Z.eq_dec u 0) as [->|Hne]; [apply Z.bits_0|].
      apply Z.bits_above_log2; [lia|].
      assert (Z.log2 u < 23) by (apply Z.log2_lt_pow2; lia). lia. }
    by rewrite !Hhigh by lia.
  - assert (Z.testbit u 23 = true) as ->.
    { apply Z.testbit_true; [lia|].
      assert (u / 2 ^ 23 = 1) as ->
        by (symmetry; apply Z.div_unique with (r := u - 2 ^ 23); lia).
      reflexivity. }
    apply Z.bits_above_log2_neg; [lia|].
    destruct (Z.eq_dec (Z.pred (- (u - 2 ^ 24))) 0) as [->|Hne]; [cbn; lia|].
    assert (Z.log2 (Z.pred (- (u - 2 ^ 24))) < 23)
      by (apply Z.log2_lt_pow2; lia).
    lia.
Qed.

(** C1: for every 24 sampled bits, [read] builds three bytes, the most
    significant byte first and each byte most significant bit first, and
    returns the two's-complement reading of the 24-bit pattern, its sign
    repeated in the bits above; bytes 7F FF FF give 8388607, bytes
    80 00 00 give -8388608 and bytes 00 00 01 give 1. *)
Theorem read_twos_complement :
  (forall (w : World) (busy bits rest : list Z),
      pin_script w = busy ++ 0 :: bits ++ rest ->
      Forall busy_level busy ->
      length bits = 24%nat ->
      Forall is_bit bits ->
      let byte2 := unsigned_msb_first (take 8 bits) in
      let byte1 := unsigned_msb_first (take 8 (drop 8 bits)) in
      let byte0 := unsigned_msb_first (take 8 (drop 16 bits)) in
      let pattern := byte2 * 65536 + byte1 * 256 + byte0 in
      read w = Some (twos_complement 24 pattern, with_pin_script rest w,
                     read_trace w busy bits)
      /\ data_bytes bits = [byte0; byte1; byte2]
      /\ pattern = unsigned_msb_first bits
      /\ to_int32 (twos_complement 24 pattern) = twos_complement 24 pattern
      /\ forall i, 23 <= i ->
           Z.testbit (twos_complement 24 pattern) i = Z.testbit pattern 23)
  /\ sign_extend [255; 255; 127] = 8388607
  /\ sign_extend [0; 0; 128] = -8388608
  /\ sign_extend [1; 0; 0] = 1.
Proof.
  split; [|by vm_compute].
  intros w busy bits rest Hscript Hbusy Hlen Hbits byte2 byte1 byte0 pattern.
  destruct (decode_bits bits Hlen Hbits) as (Hval & Hpat & Hrange).
  fold byte2 byte1 byte0 pattern in Hval, Hpat.
  rewrite Hpat in Hrange.
  pose proof (twos_complement_24_range pattern Hrange) as Hsigned.
  repeat split.
  - rewrite (read_from_script w busy bits rest) by assumption.
    by rewrite Hval.
  - unfold data_bytes, byte0, byte1, byte2.
    rewrite !shift_bits_msb
      by first [ rewrite length_take, ?length_drop; lia
               | repeat (apply Forall_take || apply Forall_drop); assumption ].
    reflexivity.
  - by rewrite Hpat.
  - apply to_int32_small. lia.
  - intros i Hi. by apply twos_complement_24_sign_bits.
Qed.

(** Every level of an explicit list is 0 or 1. *)
Ltac all_bits :=
  repeat (apply List.Forall_cons; [(by left) || (by right)|]);
  apply List.Forall_nil.

Lemma read_twos_complement_witness :
  read (initial (1 :: 0 :: bits_7FFFFF ++ [1]) []) =
  Some (8388607, initial [1] [], read_trace (initial [] []) [1] bits_7FFFFF).
Proof.
  destruct read_twos_complement as [H _].
  destruct (H (initial (1 :: 0 :: bits_7FFFFF ++ [1]) []) [1] bits_7FFFFF [1])
    as [Hread _].
  - reflexivity.
  - repeat constructor. unfold busy_level. lia.
  - reflexivity.
  - unfold bits_7FFFFF. cbn [replicate]. all_bits.
  - exact Hread.
Defined.

(** C7: when every sampled level is 0 or 1, the value [read] returns lies
    between -2^23 and 2^23 - 1. *)
Theorem read_in_signed_24_range (w w' : World) (v : Z) (tr : trace) :
  Forall is_bit (pin_script w) ->
  read w = Some (v, w', tr) ->
  - 2 ^ 23 <= v <= 2 ^ 23 - 1.
Proof.
  intros Hbits Hread.
  apply read_inv in Hread
    as (busy & levels & rest & Hscript & _ & Hlen & -> & _ & _).
  rewrite Hscript in Hbits.
  apply Forall_app in Hbits as [_ Hbits].
  apply Forall_cons in Hbits as [_ Hbits].
  apply Forall_app in Hbits as [Hbits _].
  destruct (decode_bits levels Hlen Hbits) as (-> & Hpat & Hrange).
  rewrite <- Hpat. by apply twos_complement_24_range.
Qed.

Lemma read_in_signed_24_range_witness :
  - 2 ^ 23 <= -8388608 <= 2 ^ 23 - 1.
Proof.
  apply (read_in_signed_24_range
           (initial (0 :: 1 :: replicate 23 0) []) (initial [] []) (-8388608)
           (read_trace (initial [] []) [] (1 :: replicate 23 0))).
  - cbn [initial pin_script replicate]. all_bits.
  - vm_compute. reflexivity.
Defined.

(** C10: every [read] that returns leaves the clock line low, whatever
    the number of gain pulses, none included: the last clock write of the
    shift-in is low, and so is the last write of every gain pulse. *)
Theorem read_leaves_clock_low (w w' : World) (v : Z) (tr : trace) :
  read w = Some (v, w', tr) ->
  PD_SCK w' = PD_SCK w
  /\ clock_level (PD_SCK w) tr = Some 0
  /\ (exists busy levels,
        tr = wait_trace (DOUT w) 0 busy
             ++ flat_map (bit_cycle (PD_SCK w) (DOUT w)) levels
             ++ pulse_train (PD_SCK w) (Z.to_nat (GAIN w))
        /\ clock_level (PD_SCK w)
             (wait_trace (DOUT w) 0 busy
              ++ flat_map (bit_cycle (PD_SCK w) (DOUT w)) levels) = Some 0)
  /\ clock_level (PD_SCK w) (gain_pulse (PD_SCK w)) = Some 0.
Proof.
  intros Hread.
  apply read_inv in Hread
    as (busy & levels & rest & _ & _ & Hlen & _ & -> & ->).
  assert (clock_level (PD_SCK w)
            (wait_trace (DOUT w) 0 busy
             ++ flat_map (bit_cycle (PD_SCK w) (DOUT w)) levels) = Some 0) as Hshift.
  { unfold clock_level.
    rewrite clock_writes_app, clock_writes_wait, clock_writes_bits.
    apply last_low_bits. by destruct levels. }
  repeat split.
  - unfold read_trace, clock_level in *.
    rewrite app_assoc, clock_writes_app, clock_writes_pulses.
    by apply last_low_pulses.
  - by exists busy, levels.
  - unfold clock_level, clock_writes, gain_pulse. cbn [flat_map app].
    rewrite !decide_True by reflexivity. reflexivity.
Qed.

Lemma read_leaves_clock_low_witness :
  clock_level P0 (read_trace (initial [] []) [] (replicate 24 0)) = Some 0.
Proof.
  apply (read_leaves_clock_low
           (initial (0 :: replicate 24 0) []) (initial [] []) 0
           (read_trace (initial [] []) [] (replicate 24 0))).
  vm_compute. reflexivity.
Defined.

(** ** Sequences of calls *)

Lemma same_vars_selector (w w' : World) : same_vars w w' -> same_selector w w'.
Proof. unfold same_vars, same_selector. tauto. Qed.

Lemma same_selector_trans (w1 w2 w3 : World) :
  same_selector w1 w2 -> same_selector w2 w3 -> same_selector w1 w3.
Proof. unfold same_selector. intuition congruence. Qed.

Lemma set_gain_run (gain : Z) (w : World) :
  set_gain gain w =
  let w1 := with_GAIN (default (GAIN w) (pulses_of_gain gain)) w in
  match read w1 with
  | Some (_, w2, t) => Some (tt, w2, DigitalWrite (PD_SCK w) 0 :: t)
  | None => None
  end.
Proof.
  unfold set_gain, pulses_of_gain. rewrite bind_run.
  assert (with_GAIN (GAIN w) w = w) as Hid by (by destruct w).
  destruct (gain =? 128); [|destruct (gain =? 64); [|destruct (gain =? 32)]];
    cbn [default from_option id]; run_driver; rewrite ?Hid;
    match goal with |- context [read ?x] => destruct (read x) as [[[v w2] t]|] end;
    rewrite ?app_nil_r; reflexivity.
Qed.

Lemma set_gain_GAIN (gain : Z) (w w' : World) (t : trace) :
  set_gain gain w = Some (tt, w', t) ->
  PD_SCK w' = PD_SCK w /\ DOUT w' = DOUT w
  /\ GAIN w' = default (GAIN w) (pulses_of_gain gain).
Proof.
  rewrite set_gain_run. cbv zeta.
  destruct (read _) as [[[v w2] t2]|] eqn:Hread; [|discriminate].
  intros [= <- _]. apply keeps_read in Hread as (H1 & H2 & H3 & _).
  rewrite H1, H2, H3. by repeat split.
Qed.

Lemma perform_selector (c : call) (w w' : World) (t : trace) :
  perform c w = Some (tt, w', t) ->
  GAIN w' = default (GAIN w) (selects c)
  /\ (selects c = None -> same_selector w w').
Proof.
  assert (forall {A} (m : Driver A),
             keeps_vars m -> (m;; mret tt) w = Some (tt, w', t) ->
             GAIN w' = GAIN w /\ (None = None :> option Z -> same_selector w w'))
    as Hdrop.
  { intros A m Hm H. apply bind_Some in H as (a & w1 & t1 & t2 & H1 & [= <- _] & _).
    apply Hm, same_vars_selector in H1. split; [apply H1|done]. }
  assert (forall m : Driver unit,
             keeps_vars m -> m w = Some (tt, w', t) ->
             GAIN w' = GAIN w /\ (None = None :> option Z -> same_selector w w'))
    as Hkeep.
  { intros m Hm H. apply Hm, same_vars_selector in H. split; [apply H|done]. }
  destruct c; cbn [perform selects default from_option id].
  - (* begin *)
    unfold begin. rewrite bind_run. unfold modify at 1.
    destruct (set_gain 128 _) as [[[[] w2] t2]|] eqn:H; [|discriminate].
    intros [= <- _]. apply set_gain_GAIN in H as (_ & _ & ->). by split.
  - apply Hdrop, keeps_is_ready.
  - intros H. apply set_gain_GAIN in H as (H1 & H2 & H3).
    split; [exact H3|]. intros E. rewrite E in H3. by repeat split.
  - apply Hdrop, keeps_shiftInSlow.
  - apply Hdrop, keeps_read.
  - apply Hkeep, keeps_wait_ready.
  - apply Hdrop. apply keeps_wait_ready_retry_loop.
  - apply Hdrop, keeps_wait_ready_timeout.
  - apply Hdrop, keeps_read_average.
  - apply Hdrop, keeps_get_value.
  - (* calibrate *)
    unfold calibrate. intros H.
    apply bind_Some in H as (v & w1 & t1 & t2 & H1 & H2 & _).
    apply keeps_get_value, same_vars_selector in H1.
    revert H2. run_driver. intros [= <- _].
    split; [apply H1|intros _; exact H1].
  - apply Hdrop, keeps_get_units.
  - (* tare *)
    unfold tare. intros H.
    apply bind_Some in H as (v & w1 & t1 & t2 & H1 & H2 & _).
    apply keeps_read_average, same_vars_selector in H1.
    revert H2. unfold set_offset. run_driver. intros [= <- _].
    split; [apply H1|intros _; exact H1].
  - intros [= <- _]. by repeat split.
  - apply Hdrop. unfold get_scale. keeps.
  - intros [= <- _]. by repeat split.
  - apply Hdrop. unfold get_offset. keeps.
  - apply Hkeep. unfold power_up, digitalWritePin. keeps.
  - apply Hkeep. unfold power_down, digitalWritePin. keeps.
Qed.

Lemma perform_all_selector (cs : list call) :
  forall w w' t,
    perform_all cs w = Some (tt, w', t) ->
    GAIN w' = fold_left (fun g c => default g (selects c)) cs (GAIN w)
    /\ (Forall (fun c => selects c = None) cs -> same_selector w w').
Proof.
  induction cs as [|c cs IH]; intros w w' t; cbn [perform_all fold_left].
  - intros [= <- _]. by repeat split.
  - intros H. apply bind_Some in H as ([] & w1 & t1 & t2 & H1 & H2 & _).
    apply perform_selector in H1 as [Hg Hs]. apply IH in H2 as [Hg' Hs'].
    rewrite Hg', Hg. split; [reflexivity|].
    intros Hnone. apply Forall_cons in Hnone as [Hc Hcs].
    eapply same_selector_trans; eauto.
Qed.

(** ** Gain selection *)

(** C2: after [set_gain] with 128, 64 or 32, the pulse count on record is
    1, 3 or 2; the read [set_gain] itself makes, and every later [read]
    until the selector is set again, issues exactly that many gain pulses
    right after the 24 data bits, each pulse being clock high, hold,
    clock low, hold. *)
Theorem set_gain_trailing_pulses (gain : Z) (w w1 : World) (t1 : trace) :
  In gain [128; 64; 32] ->
  set_gain gain w = Some (tt, w1, t1) ->
  let pulses : nat :=
    if gain =? 128 then 1%nat else if gain =? 64 then 3%nat else 2%nat in
  GAIN w1 = Z.of_nat pulses
  /\ (exists busy levels,
        length levels = 24%nat
        /\ t1 = DigitalWrite (PD_SCK w) 0
                :: wait_trace (DOUT w) 0 busy
                ++ flat_map (bit_cycle (PD_SCK w) (DOUT w)) levels
                ++ concat (replicate pulses
                     [DigitalWrite (PD_SCK w) 1; WaitMicros 1;
                      DigitalWrite (PD_SCK w) 0; WaitMicros 1]))
  /\ forall (cs : list call) (w2 w3 : World) (t2 t3 : trace) (v : Z),
       Forall (fun c => selects c = None) cs ->
       perform_all cs w1 = Some (tt, w2, t2) ->
       read w2 = Some (v, w3, t3) ->
       exists busy levels,
         length levels = 24%nat
         /\ t3 = wait_trace (DOUT w) 0 busy
                 ++ flat_map (bit_cycle (PD_SCK w) (DOUT w)) levels
                 ++ concat (replicate pulses
                      [DigitalWrite (PD_SCK w) 1; WaitMicros 1;
                       DigitalWrite (PD_SCK w) 0; WaitMicros 1]).
Proof.
  intros Hgain Hset pulses.
  assert (pulses_of_gain gain = Some (Z.of_nat pulses)) as Hpulses.
  { unfold pulses_of_gain, pulses.
    destruct Hgain as [<-|[<-|[<-|[]]]]; reflexivity. }
  pose proof (set_gain_GAIN _ _ _ _ Hset) as (Hsck & Hdout & Hg).
  rewrite Hpulses in Hg. cbn [default from_option id] in Hg.
  split; [exact Hg|]. split.
  - rewrite set_gain_run in Hset. cbv zeta in Hset.
    rewrite Hpulses in Hset. cbn [default from_option id] in Hset.
    destruct (read _) as [[[v w2] t]|] eqn:Hread; [|discriminate].
    injection Hset as _ <-.
    apply read_inv in Hread
      as (busy & levels & rest & _ & _ & Hlen & _ & _ & ->).
    exists busy, levels. split; [exact Hlen|].
    unfold read_trace. cbn [GAIN PD_SCK DOUT with_GAIN].
    by rewrite Nat2Z.id.
  - intros cs w2 w3 t2 t3 v Hcs Hperf Hread.
    apply perform_all_selector in Hperf as [_ Hsame].
    destruct (Hsame Hcs) as (Hsck2 & Hdout2 & Hg2).
    apply read_inv in Hread
      as (busy & levels & rest & _ & _ & Hlen & _ & _ & ->).
    exists busy, levels. split; [exact Hlen|].
    unfold read_trace. rewrite Hsck2, Hdout2, Hg2, Hsck, Hdout, Hg.
    by rewrite Nat2Z.id.
Qed.

Lemma set_gain_trailing_pulses_witness :
  GAIN (with_GAIN 3 (initial [] [])) = Z.of_nat 3.
Proof.
  apply (set_gain_trailing_pulses 64
           (initial (0 :: replicate 24 0) []) (with_GAIN 3 (initial [] []))
           (DigitalWrite P0 0
              :: read_trace (with_GAIN 3 (initial [] [])) [] (replicate 24 0))).
  - cbn. tauto.
  - vm_compute. reflexivity.
Defined.

(** ** The pulse count over a run *)

(** The count is 0 at start-up and stays 0 through a [set_gain] with an
    argument the [switch] does not know: the read of [set_gain(5)] and the
    one after it both end right after the data bits. *)
Lemma pulse_count_unselected :
  perform_all [CallSetGain 5; CallRead]
    (initial (0 :: replicate 24 0 ++ 0 :: replicate 24 0) []) =
  Some (tt, initial [] [],
        DigitalWrite P0 0
          :: (wait_trace P8 0 [] ++ flat_map (bit_cycle P0 P8) (replicate 24 0))
          ++ (wait_trace P8 0 [] ++ flat_map (bit_cycle P0 P8) (replicate 24 0)))
  /\ GAIN (initial [] []) = 0
  /\ ~ pulse_count_always_selected.
Proof.
  assert (perform_all [CallSetGain 5; CallRead]
            (initial (0 :: replicate 24 0 ++ 0 :: replicate 24 0) []) =
          Some (tt, initial [] [],
                DigitalWrite P0 0
                  :: (wait_trace P8 0 [] ++ flat_map (bit_cycle P0 P8) (replicate 24 0))
                  ++ (wait_trace P8 0 [] ++ flat_map (bit_cycle P0 P8) (replicate 24 0))))
    as Hrun by (vm_compute; reflexivity).
  split; [exact Hrun|]. split; [reflexivity|].
  intros Hclaim. apply Hclaim in Hrun. cbn in Hrun.
  destruct Hrun as [H|[H|[H|[]]]]; discriminate H.
Qed.

Lemma selects_cases (c : call) :
  selects c = None
  \/ exists p, selects c = Some p /\ In p [1; 3; 2].
Proof.
  destruct c; cbn [selects]; try (by left).
  - right. exists 1. cbn. tauto.
  - unfold pulses_of_gain.
    destruct (gain =? 128); [right; exists 1; cbn; tauto|].
    destruct (gain =? 64); [right; exists 3; cbn; tauto|].
    destruct (gain =? 32); [right; exists 2; cbn; tauto|by left].
Qed.

Lemma fold_selects_none (cs : list call) (g : Z) :
  Forall (fun c => selects c = None) cs ->
  fold_left (fun g c => default g (selects c)) cs g = g.
Proof.
  induction 1 as [|c cs Hc _ IH]; cbn [fold_left]; [reflexivity|].
  by rewrite Hc.
Qed.

Lemma fold_selects_keep (cs : list call) :
  forall g, In g [1; 3; 2] ->
    In (fold_left (fun g c => default g (selects c)) cs g) [1; 3; 2].
Proof.
  induction cs as [|c cs IH]; intros g Hg; cbn [fold_left]; [exact Hg|].
  apply IH. destruct (selects_cases c) as [->|(p & -> & Hp)]; assumption.
Qed.

Lemma fold_selects_some (cs : list call) (g : Z) :
  Exists (fun c => selects c <> None) cs ->
  In (fold_left (fun g c => default g (selects c)) cs g) [1; 3; 2].
Proof.
  intros H. revert g. induction H as [c cs Hc|c cs _ IH]; intros g; cbn [fold_left].
  - apply fold_selects_keep.
    destruct (selects_cases c) as [E|(p & -> & Hp)]; [done|exact Hp].
  - apply IH.
Qed.

Lemma fold_selects_in (cs : list call) :
  forall g, In g [0; 1; 3; 2] ->
    In (fold_left (fun g c => default g (selects c)) cs g) [0; 1; 3; 2].
Proof.
  induction cs as [|c cs IH]; intros g Hg; cbn [fold_left]; [exact Hg|].
  apply IH. destruct (selects_cases c) as [->|(p & -> & Hp)]; [exact Hg|].
  by right.
Qed.

(** C9, amended: the pulse count changes only through [set_gain] with
    128, 64 or 32 ([begin] goes through [set_gain(128)]), which records 1,
    3 or 2; [set_gain] with any other argument, and every other call,
    leaves it as it was.  So from start-up it is one of 0, 1, 3, 2: 0
    until the first such call, one of 1, 3, 2 from then on. *)
Theorem pulse_count_invariant :
  (forall (c : call) (w w' : World) (t : trace),
      perform c w = Some (tt, w', t) ->
      GAIN w' =
        match c with
        | CallBegin _ _ => 1
        | CallSetGain gain =>
            if gain =? 128 then 1
            else if gain =? 64 then 3
            else if gain =? 32 then 2
            else GAIN w
        | _ => GAIN w
        end)
  /\ (forall (levels times : list Z) (cs : list call) (w : World) (t : trace),
        perform_all cs (initial levels times) = Some (tt, w, t) ->
        In (GAIN w) [0; 1; 3; 2]
        /\ (Forall (fun c => selects c = None) cs -> GAIN w = 0)
        /\ (Exists (fun c => selects c <> None) cs -> In (GAIN w) [1; 3; 2])).
Proof.
  split.
  - intros c w w' t H. apply perform_selector in H as [-> _].
    destruct c; try reflexivity. cbn [selects]. unfold pulses_of_gain.
    destruct (gain =? 128); [reflexivity|].
    destruct (gain =? 64); [reflexivity|].
    destruct (gain =? 32); reflexivity.
  - intros levels times cs w t H.
    apply perform_all_selector in H as [-> _].
    change (GAIN (initial levels times)) with 0.
    split; [|split].
    + apply fold_selects_in. cbn. tauto.
    + apply fold_selects_none.
    + apply fold_selects_some.
Qed.

Lemma pulse_count_invariant_witness :
  In 3 [0; 1; 3; 2].
Proof.
  destruct pulse_count_invariant as [_ H].
  apply (H (0 :: replicate 24 0 ++ 0 :: replicate 24 0) []
           [CallSetGain 64; CallSetGain 7]
           (with_GAIN 3 (initial [] []))
           ((DigitalWrite P0 0
               :: read_trace (with_GAIN 3 (initial [] [])) [] (replicate 24 0))
            ++ (DigitalWrite P0 0
               :: read_trace (with_GAIN 3 (initial [] [])) [] (replicate 24 0)))).
  vm_compute. reflexivity.
Defined.

(** ** Interrupts *)

Lemma forallb_flat_map {A B : Type} (f : B -> bool) (g : A -> list B) (l : list A) :
  (forall a, forallb f (g a) = true) -> forallb f (flat_map g l) = true.
Proof.
  intros Hg. induction l as [|a l IH]; [reflexivity|].
  cbn [flat_map]. by rewrite forallb_app, Hg, IH.
Qed.

Lemma forallb_pulse_train (f : event -> bool) (sck : DigitalPin) (n : nat) :
  forallb f (gain_pulse sck) = true -> forallb f (pulse_train sck n) = true.
Proof.
  intros H. unfold pulse_train. induction n as [|n IH]; [reflexivity|].
  cbn [replicate concat]. by rewrite forallb_app, H, IH.
Qed.

(** The read of a ready device with interrupts enabled: no write of it is
    masked. *)
Lemma read_does_not_mask :
  read (initial (0 :: replicate 24 0) []) =
    Some (0, initial [] [],
          wait_trace P8 0 [] ++ flat_map (bit_cycle P0 P8) (replicate 24 0))
  /\ writes_masked false
       (wait_trace P8 0 [] ++ flat_map (bit_cycle P0 P8) (replicate 24 0)) = false
  /\ ~ read_masks_interrupts.
Proof.
  assert (read (initial (0 :: replicate 24 0) []) =
          Some (0, initial [] [],
                wait_trace P8 0 [] ++ flat_map (bit_cycle P0 P8) (replicate 24 0)))
    as Hrun by (vm_compute; reflexivity).
  split; [exact Hrun|]. split; [reflexivity|].
  intros Hclaim. apply Hclaim in Hrun. discriminate Hrun.
Qed.

(** C3, amended: [read] never touches the interrupt state.  Once the
    device is ready, the 24 data bits and the gain pulses go out back to
    back as pin writes, pin reads and 1 us busy waits, with no pause in
    between; the only pauses of [read] are those of the readiness wait. *)
Theorem read_critical_section (w w' : World) (v : Z) (tr : trace) :
  read w = Some (v, w', tr) ->
  forallb (fun e => negb (touches_interrupts e)) tr = true
  /\ exists (busy levels : list Z) (critical : trace),
       tr = wait_trace (DOUT w) 0 busy ++ critical
       /\ length levels = 24%nat
       /\ critical = flat_map (bit_cycle (PD_SCK w) (DOUT w)) levels
                     ++ pulse_train (PD_SCK w) (Z.to_nat (GAIN w))
       /\ forallb bit_bang critical = true.
Proof.
  intros Hread.
  apply read_inv in Hread
    as (busy & levels & rest & _ & _ & Hlen & _ & _ & ->).
  unfold read_trace. split.
  - rewrite !forallb_app. repeat (apply andb_true_intro; split).
    + unfold wait_trace. rewrite forallb_app.
      apply andb_true_intro; split; [|reflexivity].
      by apply forallb_flat_map.
    + by apply forallb_flat_map.
    + by apply forallb_pulse_train.
  - exists busy, levels, (flat_map (bit_cycle (PD_SCK w) (DOUT w)) levels
                          ++ pulse_train (PD_SCK w) (Z.to_nat (GAIN w))).
    repeat split; [exact Hlen|].
    rewrite forallb_app. apply andb_true_intro; split.
    + by apply forallb_flat_map.
    + by apply forallb_pulse_train.
Qed.

Lemma read_critical_section_witness :
  forallb (fun e => negb (touches_interrupts e))
    (read_trace (initial [] []) [1] (replicate 24 1)) = true.
Proof.
  apply (read_critical_section
           (initial (1 :: 0 :: replicate 24 1) []) (initial [] []) (-1)
           (read_trace (initial [] []) [1] (replicate 24 1))).
  vm_compute. reflexivity.
Defined.

(** ** Bounded waiting *)

Lemma retry_loop_ready (retries delay_ms : Z) (rest busy : list Z) :
  forall (fuel : nat) (count : Z) (w : World),
    pin_script w = busy ++ 0 :: rest ->
    Forall busy_level busy ->
    count + Z.of_nat (length busy) < retries ->
    (length busy < fuel)%nat ->
    wait_ready_retry_loop fuel retries delay_ms count w =
    Some (true, with_pin_script rest w, wait_trace (DOUT w) delay_ms busy).
Proof.
  induction busy as [|level busy IH]; intros fuel count w Hscript Hbusy Hcount Hfuel;
    (destruct fuel as [|fuel]; [cbn [length] in Hfuel; lia|]);
    cbn [wait_ready_retry_loop length] in *;
    (destruct (Z.ltb_spec count retries); [|lia]);
    rewrite bind_run, is_ready_run, Hscript; cbn [app].
  - reflexivity.
  - apply Forall_cons in Hbusy as [Hlevel Hbusy].
    destruct (Z.eqb_spec level 0) as [->|_]; [done|].
    rewrite bind_run. unfold pause at 1, emit at 1.
    rewrite (IH fuel (count + 1) (with_pin_script (busy ++ 0 :: rest) w));
      [reflexivity|reflexivity|assumption|lia|lia].
Qed.

Lemma retry_loop_exhausted (retries delay_ms : Z) (rest busy : list Z) :
  forall (fuel : nat) (count : Z) (w : World),
    pin_script w = busy ++ rest ->
    Forall busy_level busy ->
    count + Z.of_nat (length busy) = retries ->
    (length busy <= fuel)%nat ->
    wait_ready_retry_loop fuel retries delay_ms count w =
    Some (false, with_pin_script rest w, busy_checks (DOUT w) delay_ms busy).
Proof.
  induction busy as [|level busy IH]; intros fuel count w Hscript Hbusy Hcount Hfuel.
  - cbn [length app] in *.
    assert (wait_ready_retry_loop fuel retries delay_ms count = mret false) as ->.
    { destruct fuel; cbn [wait_ready_retry_loop];
        (destruct (Z.ltb_spec count retries); [lia|reflexivity]). }
    rewrite <- Hscript, with_pin_script_id. reflexivity.
  - destruct fuel as [|fuel]; [cbn [length] in Hfuel; lia|].
    cbn [wait_ready_retry_loop length] in *.
    destruct (Z.ltb_spec count retries); [|lia].
    rewrite bind_run, is_ready_run, Hscript. cbn [app].
    apply Forall_cons in Hbusy as [Hlevel Hbusy].
    destruct (Z.eqb_spec level 0) as [->|_]; [done|].
    rewrite bind_run. unfold pause at 1, emit at 1.
    rewrite (IH fuel (count + 1) (with_pin_script (busy ++ rest) w));
      [reflexivity|reflexivity|assumption|lia|lia].
Qed.

Lemma retry_loop_checks (retries delay_ms : Z) (fuel : nat) :
  forall (count : Z) (w w' : World) (b : bool) (tr : trace),
    wait_ready_retry_loop fuel retries delay_ms count w = Some (b, w', tr) ->
    (checks tr <= fuel)%nat.
Proof.
  induction fuel as [|fuel IH]; intros count w w' b tr;
    cbn [wait_ready_retry_loop]; destruct (count <? retries);
    try discriminate; try (intros [= _ _ <-]; cbn; lia).
  rewrite bind_run, is_ready_run.
  destruct (pin_script w) as [|level script]; [discriminate|].
  destruct (level =? 0).
  - intros [= _ _ <-]. cbn. lia.
  - rewrite bind_run. unfold pause at 1, emit at 1.
    destruct (wait_ready_retry_loop fuel _ _ _ _) as [[[b' w2] t2]|] eqn:Hloop;
      [|discriminate].
    intros [= _ _ <-]. apply IH in Hloop. unfold checks in *. cbn. lia.
Qed.

(** C8: [wait_ready_retry(k, pollMs)] makes at most [k] readiness checks;
    it returns true at the first check that finds the device ready,
    without checking again, and false once [k] checks have found it busy;
    with [k = 0] it returns false without a single platform call. *)
Theorem wait_ready_retry_bounded (k delay_ms : Z) (w : World) :
  0 <= k ->
  (forall (b : bool) (w' : World) (tr : trace),
      wait_ready_retry k delay_ms w = Some (b, w', tr) ->
      (checks tr <= Z.to_nat k)%nat)
  /\ (forall busy rest,
        pin_script w = busy ++ 0 :: rest ->
        Forall busy_level busy ->
        Z.of_nat (length busy) < k ->
        wait_ready_retry k delay_ms w =
        Some (true, with_pin_script rest w,
              busy_checks (DOUT w) delay_ms busy ++ [DigitalRead (DOUT w) 0]))
  /\ (forall busy rest,
        pin_script w = busy ++ rest ->
        Forall busy_level busy ->
        Z.of_nat (length busy) = k ->
        wait_ready_retry k delay_ms w =
        Some (false, with_pin_script rest w, busy_checks (DOUT w) delay_ms busy)
        /\ checks (busy_checks (DOUT w) delay_ms busy) = Z.to_nat k)
  /\ (k = 0 -> wait_ready_retry k delay_ms w = Some (false, w, [])).
Proof.
  intros Hk. unfold wait_ready_retry. split; [|split; [|split]].
  - intros b w' tr. apply retry_loop_checks.
  - intros busy rest Hscript Hbusy Hlen.
    apply retry_loop_ready; try assumption; lia.
  - intros busy rest Hscript Hbusy Hlen. split.
    + apply retry_loop_exhausted; try assumption; lia.
    + rewrite <- Hlen, Nat2Z.id. clear.
      induction busy as [|level busy IH]; [reflexivity|].
      unfold checks, busy_checks in *. cbn. by rewrite IH.
  - intros ->. reflexivity.
Qed.

Lemma wait_ready_retry_bounded_witness :
  wait_ready_retry 2 5 (initial [1; 0; 1] []) =
  Some (true, initial [1] [], [DigitalRead P8 1; Pause 5; DigitalRead P8 0]).
Proof.
  destruct (wait_ready_retry_bounded 2 5 (initial [1; 0; 1] []))
    as (_ & H & _); [lia|].
  apply (H [1] [1]).
  - reflexivity.
  - apply List.Forall_cons; [unfold busy_level; lia|apply List.Forall_nil].
  - cbn. lia.
Defined.

(** ** Averaging *)

Lemma reads_length (n : nat) :
  forall w vs w' tr, reads n w = Some (vs, w', tr) -> length vs = n.
Proof.
  induction n as [|n IH]; intros w vs w' tr; cbn [reads].
  - by intros [= <- _ _].
  - intros H. apply bind_Some in H as (v & w1 & t1 & t2 & _ & H & _).
    apply bind_Some in H as (vs' & w2 & t3 & t4 & H & [= <- _ _] & _).
    cbn [length]. f_equal. eapply IH, H.
Qed.

Lemma add_sample_run (i : Z) (sum : number) (w : World) :
  add_sample i sum w =
  match read w with
  | Some (v, w', tr) => Some ((sum + number_of_Z v)%float, w', tr ++ [Pause 0])
  | None => None
  end.
Proof.
  unfold add_sample. rewrite bind_run.
  destruct (read w) as [[[v w'] tr]|]; reflexivity.
Qed.

Lemma add_sample_loop (n : nat) :
  forall (i : Z) (acc : number) (w : World),
    match reads n w with
    | Some (vs, w', _) =>
        exists tr',
          for_range n i add_sample acc w =
          Some (fold_left (fun sum v => (sum + number_of_Z v)%float) vs acc, w', tr')
    | None => for_range n i add_sample acc w = None
    end.
Proof.
  induction n as [|n IH]; intros i acc w; cbn [reads for_range].
  - by exists [].
  - rewrite !bind_run, add_sample_run.
    destruct (read w) as [[[v w1] t1]|]; [|reflexivity].
    specialize (IH (i + 1) (acc + number_of_Z v)%float w1).
    rewrite bind_run.
    destruct (reads n w1) as [[[vs w2] t2]|].
    + destruct IH as [tr' ->]. unfold mret, Driver_ret. cbn [fold_left]. eauto.
    + by rewrite IH.
Qed.

(** C4: for [n >= 1], [read_average(n)] returns the arithmetic mean of
    the values [n] consecutive calls of [read] return: their sum divided
    by [n], as numbers. *)
Theorem read_average_is_mean (n : Z) (w w' : World) (vs : list Z) (tr : trace) :
  1 <= n ->
  reads (Z.to_nat n) w = Some (vs, w', tr) ->
  Z.of_nat (length vs) = n
  /\ exists tr',
       read_average n w = Some (mean vs, w', tr')
       /\ mean vs = (sum_samples vs / number_of_Z n)%float.
Proof.
  intros Hn Hreads.
  assert (Z.of_nat (length vs) = n) as Hlen
    by (rewrite (reads_length _ _ _ _ _ Hreads); lia).
  split; [exact Hlen|].
  pose proof (add_sample_loop (Z.to_nat n) 0 0%float w) as Hloop.
  rewrite Hreads in Hloop. destruct Hloop as [tr' Hloop].
  exists (tr' ++ []). unfold read_average, for_lt, mean.
  rewrite bind_run, Hloop, Hlen. by split.
Qed.

Lemma read_average_is_mean_witness :
  exists tr',
    read_average 2 (initial (0 :: replicate 23 0 ++ [1]
                             ++ 0 :: replicate 22 0 ++ [1; 0]) []) =
    Some (1.5%float, initial [] [], tr').
Proof.
  destruct (read_average_is_mean 2
              (initial (0 :: replicate 23 0 ++ [1]
                        ++ 0 :: replicate 22 0 ++ [1; 0]) [])
              (initial [] []) [1; 2]
              (read_trace (initial [] []) [] (replicate 23 0 ++ [1])
               ++ read_trace (initial [] []) [] (replicate 22 0 ++ [1; 0])))
    as (_ & tr' & H & _).
  - lia.
  - vm_compute. reflexivity.
  - exists tr'. exact H.
Defined.

(** ** Offset, scale and calibration ratio *)

(** C5: for [n >= 1], [get_value(n)] is [read_average(n)] minus the
    offset, and [get_units(n)] is [get_value(n)] times the calibration
    ratio, divided by the scale; neither changes the offset, the scale or
    the ratio. *)
Theorem get_value_get_units (n : Z) (w w' : World) (avg : number) (tr : trace) :
  1 <= n ->
  read_average n w = Some (avg, w', tr) ->
  get_value n w = Some ((avg - OFFSET w)%float, w', tr)
  /\ get_units n w =
       Some (((avg - OFFSET w) * CAL_RATIO w / SCALE w)%float, w', tr)
  /\ (forall v w'' tr'',
        get_value n w = Some (v, w'', tr'') ->
        get_units n w = Some ((v * CAL_RATIO w / SCALE w)%float, w'', tr''))
  /\ OFFSET w' = OFFSET w /\ SCALE w' = SCALE w /\ CAL_RATIO w' = CAL_RATIO w.
Proof.
  intros Hn Havg.
  pose proof (keeps_read_average _ _ _ _ _ Havg) as (_ & _ & _ & Ho & Hs & Hr).
  assert (get_value n w = Some ((avg - OFFSET w)%float, w', tr)) as Hvalue.
  { unfold get_value. rewrite bind_run, Havg. run_driver.
    by rewrite Ho, app_nil_r. }
  assert (get_units n w =
          Some (((avg - OFFSET w) * CAL_RATIO w / SCALE w)%float, w', tr)) as Hunits.
  { unfold get_units. rewrite bind_run, Hvalue. run_driver.
    by rewrite Hs, Hr, app_nil_r. }
  repeat split; try assumption.
  intros v w'' tr''. rewrite Hvalue, Hunits. by intros [= <- <- <-].
Qed.

Lemma get_value_get_units_witness :
  get_units 1 (with_OFFSET 1%float (with_SCALE 2%float (with_CAL_RATIO 3%float
                 (initial (0 :: replicate 23 0 ++ [1; 1]) [])))) =
  Some (0%float,
        with_OFFSET 1%float (with_SCALE 2%float (with_CAL_RATIO 3%float (initial [1] []))),
        read_trace (initial [] []) [] (replicate 23 0 ++ [1]) ++ [Pause 0]).
Proof.
  apply (get_value_get_units 1
           (with_OFFSET 1%float (with_SCALE 2%float (with_CAL_RATIO 3%float
              (initial (0 :: replicate 23 0 ++ [1; 1]) []))))
           (with_OFFSET 1%float (with_SCALE 2%float (with_CAL_RATIO 3%float (initial [1] []))))
           1%float
           (read_trace (initial [] []) [] (replicate 23 0 ++ [1]) ++ [Pause 0])).
  - lia.
  - vm_compute. reflexivity.
Defined.

(** *** Division by a zero value *)

Lemma is_zero_SF (x : number) :
  is_zero x = true -> exists s, Prim2SF x = S754_zero s.
Proof.
  unfold is_zero. rewrite FloatAxioms.eqb_spec.
  change (Prim2SF zero) with (S754_zero false).
  destruct (Prim2SF x) as [s|s| |s m e]; cbn; try discriminate; eauto;
    by destruct s.
Qed.

Lemma nan_or_infinity_SF (x : number) :
  Prim2SF x = S754_nan \/ (exists s, Prim2SF x = S754_infinity s) ->
  is_nan x || is_infinity x = true.
Proof.
  unfold is_nan, is_infinity. rewrite !FloatAxioms.eqb_spec, abs_spec.
  change (Prim2SF infinity) with (S754_infinity false).
  intros [->|[s ->]]; [reflexivity|]. by destruct s.
Qed.

(** Whatever the weight and the scale, dividing by a zero value over the
    scale gives an infinity or a NaN. *)
Lemma ratio_of_zero_value (weight v scale : number) :
  is_zero v = true ->
  let ratio := (weight / (v / scale))%float in
  is_nan ratio || is_infinity ratio = true.
Proof.
  intros Hv ratio. apply nan_or_infinity_SF. unfold ratio.
  destruct (is_zero_SF v Hv) as [s Hs].
  rewrite !div_spec, Hs. unfold SF64div.
  destruct (Prim2SF scale) as [s1|s1| |s1 m1 e1],
           (Prim2SF weight) as [s2|s2| |s2 m2 e2]; cbn; eauto.
Qed.

Lemma read_average_inv (n : Z) (w w' : World) (avg : number) (tr : trace) :
  read_average n w = Some (avg, w', tr) ->
  exists vs tr0,
    reads (Z.to_nat n) w = Some (vs, w', tr0)
    /\ avg = (sum_samples vs / number_of_Z n)%float.
Proof.
  unfold read_average, for_lt. rewrite bind_run.
  pose proof (add_sample_loop (Z.to_nat n) 0 0%float w) as Hloop.
  destruct (reads (Z.to_nat n) w) as [[[vs w1] t1]|].
  - destruct Hloop as [tr' ->]. intros [= <- <- _]. by exists vs, t1.
  - by rewrite Hloop.
Qed.

Lemma get_value_inv (n : Z) (w w' : World) (v : number) (tr : trace) :
  get_value n w = Some (v, w', tr) ->
  exists avg,
    read_average n w = Some (avg, w', tr) /\ v = (avg - OFFSET w)%float.
Proof.
  unfold get_value. rewrite bind_run.
  destruct (read_average n w) as [[[avg w1] t1]|] eqn:Havg; [|discriminate].
  pose proof (keeps_read_average _ _ _ _ _ Havg) as (_ & _ & _ & Ho & _).
  run_driver. rewrite Ho, app_nil_r. intros [= <- <- <-]. by exists avg.
Qed.

(** C6: [calibrate(weight)] takes [get_value(10)], ten samples whatever
    the weight, and sets the calibration ratio to
    [weight / (get_value(10) / scale)]; the offset and the scale stay as
    they were.  It returns normally also when that value is zero: the
    ratio is then an infinity or a NaN. *)
Theorem calibrate_sets_ratio (weight v : number) (w w1 : World) (tr : trace) :
  get_value 10 w = Some (v, w1, tr) ->
  let ratio := (weight / (v / SCALE w))%float in
  calibrate weight w = Some (tt, with_CAL_RATIO ratio w1, tr)
  /\ CAL_RATIO (with_CAL_RATIO ratio w1) = ratio
  /\ OFFSET (with_CAL_RATIO ratio w1) = OFFSET w
  /\ SCALE (with_CAL_RATIO ratio w1) = SCALE w
  /\ (exists vs tr0,
        reads 10 w = Some (vs, w1, tr0)
        /\ length vs = 10%nat
        /\ v = (mean vs - OFFSET w)%float)
  /\ (is_zero v = true -> is_nan ratio || is_infinity ratio = true).
Proof.
  intros Hvalue ratio.
  pose proof (keeps_get_value _ _ _ _ _ Hvalue) as (_ & _ & _ & Ho & Hs & _).
  repeat split.
  - unfold calibrate. rewrite bind_run, Hvalue. run_driver.
    by rewrite Hs, app_nil_r.
  - exact Ho.
  - exact Hs.
  - apply get_value_inv in Hvalue as (avg & Havg & ->).
    apply read_average_inv in Havg as (vs & tr0 & Hreads & ->).
    pose proof (reads_length _ _ _ _ _ Hreads) as Hlen.
    exists vs, tr0. repeat split; [exact Hreads|exact Hlen|].
    unfold mean. by rewrite Hlen.
  - intros Hzero. by apply ratio_of_zero_value.
Qed.

Lemma calibrate_sets_ratio_witness :
  calibrate 5%float (initial ten_zero_samples []) =
  Some (tt, with_CAL_RATIO infinity (initial [] []), ten_zero_trace).
Proof.
  apply (calibrate_sets_ratio 5%float 0%float
           (initial ten_zero_samples []) (initial [] []) ten_zero_trace).
  vm_compute. reflexivity.
Defined.


(** * Further properties *)

(** ** What the conversion protocol does not look at *)

Lemma unseen_with_OFFSET (x : number) : unseen_by_read (with_OFFSET x).
Proof. intros w. by repeat split. Qed.

Lemma unseen_with_SCALE (x : number) : unseen_by_read (with_SCALE x).
Proof. intros w. by repeat split. Qed.

Lemma unseen_with_CAL_RATIO (x : number) : unseen_by_read (with_CAL_RATIO x).
Proof. intros w. by repeat split. Qed.

Lemma unseen_compose (f g : World -> World) :
  unseen_by_read f -> unseen_by_read g -> unseen_by_read (fun w => f (g w)).
Proof.
  intros Hf Hg w.
  destruct (Hf (g w)) as (F1 & F2 & F3 & F4 & F5).
  destruct (Hg w) as (G1 & G2 & G3 & G4 & G5).
  repeat split; first [congruence | intros l; by rewrite F5, G5].
Qed.

Lemma read_unseen (f : World -> World) (w : World) :
  unseen_by_read f -> read (f w) = then_world f (read w).
Proof.
  intros Hf. destruct (Hf w) as (H1 & H2 & H3 & H4 & H5).
  rewrite !read_run, H4.
  destruct (split_ready (pin_script w)) as [[busy rest]|]; [|reflexivity].
  destruct (decide (24 <= length rest)%nat); [|reflexivity].
  cbn [then_world]. unfold read_trace. by rewrite H1, H2, H3, H5.
Qed.

Lemma add_sample_loop_unseen (f : World -> World) (n : nat) :
  unseen_by_read f ->
  forall i acc w,
    for_range n i add_sample acc (f w) =
    then_world f (for_range n i add_sample acc w).
Proof.
  intros Hf. induction n as [|n IH]; intros i acc w; cbn [for_range].
  - reflexivity.
  - rewrite !bind_run, !add_sample_run, read_unseen by assumption.
    destruct (read w) as [[[v w1] t1]|]; [|reflexivity].
    cbn [then_world]. rewrite IH.
    destruct (for_range n _ _ _ w1) as [[[s' w2] t2]|]; reflexivity.
Qed.

Lemma read_average_unseen (f : World -> World) (times : Z) (w : World) :
  unseen_by_read f ->
  read_average times (f w) = then_world f (read_average times w).
Proof.
  intros Hf. unfold read_average, for_lt.
  rewrite !bind_run, add_sample_loop_unseen by assumption.
  destruct (for_range _ _ _ _ w) as [[[s' w1] t1]|]; reflexivity.
Qed.

(** ** Setting the offset and the scale *)

(** X10: the offset and the scale a client sets are the ones the next
    reading is computed with, and setting them changes no sample. *)
Theorem set_offset_set_scale_get_units
    (offset scale avg : number) (times : Z) (w w' : World) (tr : trace) :
  read_average times w = Some (avg, w', tr) ->
  (set_offset offset;; set_scale scale;; get_units times) w =
    Some (((avg - offset) * CAL_RATIO w / scale)%float,
          with_SCALE scale (with_OFFSET offset w'), tr)
  /\ (set_offset offset;; get_offset) w = Some (offset, with_OFFSET offset w, [])
  /\ (set_scale scale;; get_scale) w = Some (scale, with_SCALE scale w, []).
Proof.
  intros Havg. split; [|by split].
  pose proof (keeps_read_average _ _ _ _ _ Havg) as (_ & _ & _ & _ & _ & Hr).
  unfold set_offset, set_scale, get_units, get_value.
  pose proof (read_average_unseen
                (fun w => with_SCALE scale (with_OFFSET offset w)) times w
                (unseen_compose _ _ (unseen_with_SCALE scale)
                                    (unseen_with_OFFSET offset))) as E.
  cbn beta in E. rewrite Havg in E. cbn [then_world] in E.
  rewrite !bind_run. unfold modify. rewrite !bind_run, E.
  run_driver. by rewrite Hr, !app_nil_r.
Qed.

Lemma set_offset_set_scale_get_units_witness :
  (set_offset 1%float;; set_scale 2%float;; get_units 1)
    (initial (0 :: replicate 23 0 ++ [1; 1]) []) =
  Some (0%float, with_SCALE 2%float (with_OFFSET 1%float (initial [1] [])),
        read_trace (initial [] []) [] (replicate 23 0 ++ [1]) ++ [Pause 0]).
Proof.
  apply (set_offset_set_scale_get_units 1%float 2%float 1%float 1
           (initial (0 :: replicate 23 0 ++ [1; 1]) []) (initial [1] [])
           (read_trace (initial [] []) [] (replicate 23 0 ++ [1]) ++ [Pause 0])).
  vm_compute. reflexivity.
Defined.

(** ** Taring *)

(** X11: [tare(n)] stores the average of [n] reads as the offset and
    changes nothing else; the values read afterwards have exactly that
    average taken off. *)
Theorem tare_sets_offset (n : Z) (avg : number) (w w' : World) (tr : trace) :
  read_average n w = Some (avg, w', tr) ->
  tare n w = Some (tt, with_OFFSET avg w', tr)
  /\ get_offset (with_OFFSET avg w') = Some (avg, with_OFFSET avg w', [])
  /\ PD_SCK w' = PD_SCK w /\ DOUT w' = DOUT w /\ GAIN w' = GAIN w
  /\ SCALE w' = SCALE w /\ CAL_RATIO w' = CAL_RATIO w
  /\ forall (m : Z) (avg2 : number) (w2 : World) (tr2 : trace),
       read_average m w' = Some (avg2, w2, tr2) ->
       get_value m (with_OFFSET avg w') =
       Some ((avg2 - avg)%float, with_OFFSET avg w2, tr2).
Proof.
  intros Havg.
  pose proof (keeps_read_average _ _ _ _ _ Havg) as (H1 & H2 & H3 & _ & H5 & H6).
  split; [|repeat split; try assumption].
  - unfold tare, set_offset. rewrite bind_run, Havg. run_driver.
    by rewrite app_nil_r.
  - intros m avg2 w2 tr2 Havg2. unfold get_value.
    rewrite bind_run, read_average_unseen, Havg2 by apply unseen_with_OFFSET.
    cbn [then_world]. run_driver. by rewrite app_nil_r.
Qed.

Lemma tare_sets_offset_witness :
  tare 1 (initial (0 :: replicate 23 0 ++ [1; 1]) []) =
  Some (tt, with_OFFSET 1%float (initial [1] []),
        read_trace (initial [] []) [] (replicate 23 0 ++ [1]) ++ [Pause 0]).
Proof.
  apply (tare_sets_offset 1 1%float
           (initial (0 :: replicate 23 0 ++ [1; 1]) []) (initial [1] [])
           (read_trace (initial [] []) [] (replicate 23 0 ++ [1]) ++ [Pause 0])).
  vm_compute. reflexivity.
Defined.

(** ** Not-a-number and zero, at the level of the IEEE specification *)

Lemma is_nan_of_SF (x : number) : Prim2SF x = S754_nan -> is_nan x = true.
Proof.
  intros H. unfold is_nan. by rewrite FloatAxioms.eqb_spec, H.
Qed.

Lemma is_zero_of_SF (x : number) (s : bool) :
  Prim2SF x = S754_zero s -> is_zero x = true.
Proof.
  intros H. unfold is_zero. rewrite FloatAxioms.eqb_spec, H.
  change (Prim2SF zero) with (S754_zero false). reflexivity.
Qed.

Lemma sub_nan_r (x y : number) :
  Prim2SF y = S754_nan -> Prim2SF (x - y) = S754_nan.
Proof.
  intros H. rewrite sub_spec, H. unfold SF64sub.
  by destruct (Prim2SF x).
Qed.

Lemma mul_nan_l (x y : number) :
  Prim2SF x = S754_nan -> Prim2SF (x * y) = S754_nan.
Proof. intros H. by rewrite mul_spec, H. Qed.

Lemma div_nan_l (x y : number) :
  Prim2SF x = S754_nan -> Prim2SF (x / y) = S754_nan.
Proof. intros H. by rewrite div_spec, H. Qed.

Lemma get_units_inv (n : Z) (w w' : World) (u : number) (tr : trace) :
  get_units n w = Some (u, w', tr) ->
  exists v,
    get_value n w = Some (v, w', tr)
    /\ u = (v * CAL_RATIO w / SCALE w)%float.
Proof.
  unfold get_units. rewrite bind_run.
  destruct (get_value n w) as [[[v w1] t1]|] eqn:Hv; [|discriminate].
  pose proof (keeps_get_value _ _ _ _ _ Hv) as (_ & _ & _ & _ & Hs & Hr).
  run_driver. rewrite Hs, Hr, app_nil_r. intros [= <- <- <-]. by exists v.
Qed.

Lemma calibrate_inv (weight : number) (w w' : World) (tr : trace) :
  calibrate weight w = Some (tt, w', tr) ->
  exists v w1,
    get_value 10 w = Some (v, w1, tr)
    /\ w' = with_CAL_RATIO (weight / (v / SCALE w))%float w1.
Proof.
  unfold calibrate. rewrite bind_run.
  destruct (get_value 10 w) as [[[v w1] t1]|] eqn:Hv; [|discriminate].
  pose proof (keeps_get_value _ _ _ _ _ Hv) as (_ & _ & _ & _ & Hs & _).
  run_driver. rewrite Hs, app_nil_r. intros [= <- <-]. by exists v, w1.
Qed.

(** ** Averaging no sample *)

(** X12: with [times <= 0], [read_average] reads nothing and returns
    [0 / times]; for [times = 0] that is NaN, which [tare(0)] stores as the
    offset, and from then on every [get_value] and [get_units] is NaN. *)
Theorem read_average_no_sample (n : Z) (w : World) :
  n <= 0 ->
  read_average n w = Some ((0 / number_of_Z n)%float, w, [])
  /\ tare n w = Some (tt, with_OFFSET (0 / number_of_Z n)%float w, [])
  /\ (n = 0 ->
      is_nan (0 / number_of_Z n)%float = true
      /\ forall (m : Z) (x : number) (w1 w2 : World) (tr : trace),
           OFFSET w1 = (0 / number_of_Z n)%float ->
           (get_value m w1 = Some (x, w2, tr) -> is_nan x = true)
           /\ (get_units m w1 = Some (x, w2, tr) -> is_nan x = true)).
Proof.
  intros Hn.
  assert (read_average n w = Some ((0 / number_of_Z n)%float, w, [])) as Havg.
  { unfold read_average, for_lt.
    replace (Z.to_nat n) with 0%nat by lia. reflexivity. }
  split; [exact Havg|]. split.
  - unfold tare, set_offset. rewrite bind_run, Havg. reflexivity.
  - intros ->. split; [reflexivity|].
    intros m x w1 w2 tr Hoff.
    assert (Prim2SF (OFFSET w1) = S754_nan) as Hnan by (by rewrite Hoff).
    assert (forall v w3 t3, get_value m w1 = Some (v, w3, t3) ->
                            Prim2SF v = S754_nan) as Hvalue.
    { intros v w3 t3 Hv. apply get_value_inv in Hv as (avg & _ & ->).
      by apply sub_nan_r. }
    split.
    + intros Hv. eapply is_nan_of_SF, Hvalue, Hv.
    + intros Hu. apply get_units_inv in Hu as (v & Hv & ->).
      apply is_nan_of_SF, div_nan_l, mul_nan_l. eapply Hvalue, Hv.
Qed.

Lemma read_average_no_sample_witness :
  tare 0 (initial [1; 0] []) = Some (tt, with_OFFSET nan (initial [1; 0] []), []).
Proof.
  destruct (read_average_no_sample 0 (initial [1; 0] [])) as (_ & H & _).
  - lia.
  - exact H.
Defined.

(** ** A scale of zero *)

(** X13: [set_scale] takes a zero; with a zero scale every [get_units] is
    an infinity or a NaN, and [calibrate] leaves a ratio that is zero or
    NaN. *)
Theorem zero_scale (n : Z) (w : World) :
  is_zero (SCALE w) = true ->
  (forall (u : number) (w' : World) (tr : trace),
      get_units n w = Some (u, w', tr) ->
      is_nan u || is_infinity u = true)
  /\ (forall (weight : number) (w' : World) (tr : trace),
        calibrate weight w = Some (tt, w', tr) ->
        is_nan (CAL_RATIO w') || is_zero (CAL_RATIO w') = true).
Proof.
  intros Hzero. destruct (is_zero_SF _ Hzero) as [s Hs]. split.
  - intros u w' tr Hu. apply get_units_inv in Hu as (v & _ & ->).
    apply nan_or_infinity_SF. rewrite div_spec, Hs. unfold SF64div.
    destruct (Prim2SF (v * CAL_RATIO w)) as [s1|s1| |s1 m1 e1]; cbn; eauto.
  - intros weight w' tr Hc. apply calibrate_inv in Hc as (v & w1 & _ & ->).
    cbn [CAL_RATIO with_CAL_RATIO].
    assert (Prim2SF (weight / (v / SCALE w)) = S754_nan
            \/ exists s', Prim2SF (weight / (v / SCALE w)) = S754_zero s') as [H|[s' H]].
    { rewrite !div_spec, Hs. unfold SF64div.
      destruct (Prim2SF v) as [s1|s1| |s1 m1 e1],
               (Prim2SF weight) as [s2|s2| |s2 m2 e2]; cbn; eauto. }
    + by rewrite (is_nan_of_SF _ H).
    + rewrite (is_zero_of_SF _ _ H). apply orb_true_r.
Qed.

Lemma zero_scale_witness :
  is_nan infinity || is_infinity infinity = true.
Proof.
  destruct (zero_scale 1
              (with_SCALE 0%float (initial (0 :: replicate 23 0 ++ [1]) [])))
    as [H _].
  - reflexivity.
  - apply (H infinity (with_SCALE 0%float (initial [] []))
             (read_trace (initial [] []) [] (replicate 23 0 ++ [1]) ++ [Pause 0])).
    vm_compute. reflexivity.
Defined.

(** ** Calibrating, then reading *)

Lemma get_value_unseen (f : World -> World) (n : Z) (w : World) :
  unseen_by_read f -> (forall w, OFFSET (f w) = OFFSET w) ->
  get_value n (f w) = then_world f (get_value n w).
Proof.
  intros Hf Ho. unfold get_value.
  rewrite !bind_run, read_average_unseen by assumption.
  destruct (read_average n w) as [[[avg w1] t1]|]; [|reflexivity].
  cbn [then_world]. run_driver. by rewrite Ho.
Qed.

(** X14: the ratio [calibrate] stores is the one the next [get_units]
    multiplies by: after [calibrate(weight)], [get_units(n)] is
    [v2 * (weight / (v1 / scale)) / scale], [v1] the value [calibrate]
    took and [v2] the value now read. *)
Theorem calibrate_then_get_units
    (weight v1 v2 : number) (n : Z) (w w1 w2 : World) (tr1 tr2 : trace) :
  get_value 10 w = Some (v1, w1, tr1) ->
  get_value n w1 = Some (v2, w2, tr2) ->
  let ratio := (weight / (v1 / SCALE w))%float in
  (calibrate weight;; get_units n) w =
  Some ((v2 * ratio / SCALE w)%float, with_CAL_RATIO ratio w2, tr1 ++ tr2).
Proof.
  intros Hv1 Hv2 ratio.
  pose proof (keeps_get_value _ _ _ _ _ Hv1) as (_ & _ & _ & _ & Hs1 & _).
  pose proof (keeps_get_value _ _ _ _ _ Hv2) as (_ & _ & _ & _ & Hs2 & _).
  assert (calibrate weight w = Some (tt, with_CAL_RATIO ratio w1, tr1)) as Hc.
  { unfold calibrate. rewrite bind_run, Hv1. run_driver.
    by rewrite Hs1, app_nil_r. }
  rewrite bind_run, Hc. unfold get_units.
  rewrite bind_run, get_value_unseen, Hv2
    by (apply unseen_with_CAL_RATIO || reflexivity).
  cbn [then_world]. run_driver. by rewrite Hs2, Hs1, !app_nil_r.
Qed.

Lemma calibrate_then_get_units_witness :
  (calibrate 5%float;; get_units 1)
    (initial (concat (replicate 11 (0 :: replicate 23 0 ++ [1]))) []) =
  Some (5%float, with_CAL_RATIO 5%float (initial [] []),
        concat (replicate 10
                  (read_trace (initial [] []) [] (replicate 23 0 ++ [1])
                   ++ [Pause 0]))
        ++ (read_trace (initial [] []) [] (replicate 23 0 ++ [1]) ++ [Pause 0])).
Proof.
  apply (calibrate_then_get_units 5%float 1%float 1%float 1
           (initial (concat (replicate 11 (0 :: replicate 23 0 ++ [1]))) [])
           (initial (0 :: replicate 23 0 ++ [1]) []) (initial [] [])).
  - vm_compute. reflexivity.
  - vm_compute. reflexivity.
Defined.

(** ** Binding the pins *)

Lemma begin_run (pinDOUT pinPD_SCK : DigitalPin) (w : World) :
  begin pinDOUT pinPD_SCK w =
  match read (with_GAIN 1 (with_pins pinDOUT pinPD_SCK w)) with
  | Some (_, w2, t) => Some (tt, w2, DigitalWrite pinPD_SCK 0 :: t)
  | None => None
  end.
Proof.
  unfold begin. rewrite bind_run. unfold modify at 1. rewrite set_gain_run.
  cbv zeta. cbn [pulses_of_gain Z.eqb default from_option id PD_SCK with_pins].
  change (pulses_of_gain 128) with (Some 1). cbn [default from_option id].
  destruct (read _) as [[[v w2] t]|]; reflexivity.
Qed.

(** X1: [begin] binds both pins, records one gain pulse and leaves the
    offset, the scale and the ratio alone; the clock-low write and the
    read it makes already go to the pins just bound. *)
Theorem begin_binds_pins
    (pinDOUT pinPD_SCK : DigitalPin) (w w' : World) (t : trace) :
  begin pinDOUT pinPD_SCK w = Some (tt, w', t) ->
  DOUT w' = pinDOUT /\ PD_SCK w' = pinPD_SCK /\ GAIN w' = 1
  /\ OFFSET w' = OFFSET w /\ SCALE w' = SCALE w /\ CAL_RATIO w' = CAL_RATIO w
  /\ exists busy levels,
       pin_script w = busy ++ 0 :: levels ++ pin_script w'
       /\ Forall busy_level busy
       /\ length levels = 24%nat
       /\ t = DigitalWrite pinPD_SCK 0
              :: wait_trace pinDOUT 0 busy
              ++ flat_map (bit_cycle pinPD_SCK pinDOUT) levels
              ++ gain_pulse pinPD_SCK.
Proof.
  rewrite begin_run.
  destruct (read _) as [[[v w2] t2]|] eqn:Hread; [|discriminate].
  intros [= <- <-].
  apply read_inv in Hread
    as (busy & levels & rest & Hscript & Hbusy & Hlen & _ & -> & ->).
  repeat split.
  exists busy, levels. split; [exact Hscript|]. split; [exact Hbusy|].
  split; [exact Hlen|]. unfold read_trace, pulse_train.
  cbn [GAIN PD_SCK DOUT with_GAIN with_pins with_pin_script].
  change (Z.to_nat 1) with 1%nat. cbn [replicate concat].
  by rewrite app_nil_r.
Qed.

Lemma begin_binds_pins_witness :
  DOUT (with_GAIN 1 (with_pins P1 P2 (initial [] []))) = P1.
Proof.
  apply (begin_binds_pins P1 P2
           (initial (0 :: replicate 24 0) [])
           (with_GAIN 1 (with_pins P1 P2 (initial [] [])))
           (DigitalWrite P2 0
              :: read_trace (with_GAIN 1 (with_pins P1 P2 (initial [] [])))
                   [] (replicate 24 0))).
  vm_compute. reflexivity.
Defined.

(** ** [set_gain] with any argument *)

(** X2: whatever its argument, recognised or not, [set_gain] writes the
    clock low, waits for the device and takes one whole conversion off
    the data line, which it drops; that read already ends with the pulse
    count [set_gain] leaves on record.  An argument that is not 128, 64 or
    32 changes no variable. *)
Theorem set_gain_drops_conversion (gain : Z) (w w' : World) (t : trace) :
  set_gain gain w = Some (tt, w', t) ->
  (exists busy levels,
      pin_script w = busy ++ 0 :: levels ++ pin_script w'
      /\ Forall busy_level busy
      /\ length levels = 24%nat
      /\ t = DigitalWrite (PD_SCK w) 0
             :: wait_trace (DOUT w) 0 busy
             ++ flat_map (bit_cycle (PD_SCK w) (DOUT w)) levels
             ++ pulse_train (PD_SCK w) (Z.to_nat (GAIN w')))
  /\ (pulses_of_gain gain = None -> same_vars w w').
Proof.
  intros Hset. rewrite set_gain_run in Hset. cbv zeta in Hset.
  destruct (read _) as [[[v w2] t2]|] eqn:Hread; [|discriminate].
  injection Hset as <- <-.
  pose proof (keeps_read _ _ _ _ Hread) as Hkeep.
  apply read_inv in Hread
    as (busy & levels & rest & Hscript & Hbusy & Hlen & _ & -> & ->).
  split.
  - exists busy, levels. split; [exact Hscript|]. split; [exact Hbusy|].
    split; [exact Hlen|]. reflexivity.
  - intros Hnone. rewrite Hnone. cbn [default from_option id].
    by repeat split.
Qed.

Lemma set_gain_drops_conversion_witness :
  same_vars (initial (0 :: replicate 24 0 ++ [1]) []) (initial [1] []).
Proof.
  apply (set_gain_drops_conversion 5
           (initial (0 :: replicate 24 0 ++ [1]) []) (initial [1] [])
           (DigitalWrite P0 0 :: read_trace (initial [] []) [] (replicate 24 0))).
  - vm_compute. reflexivity.
  - reflexivity.
Defined.

(** ** Waiting without a bound *)

Lemma split_ready_None (script : list Z) :
  Forall busy_level script -> split_ready script = None.
Proof.
  induction 1 as [|level script Hlevel _ IH]; [reflexivity|].
  cbn [split_ready]. destruct (Z.eqb_spec level 0) as [->|_]; [done|].
  by rewrite IH.
Qed.

(** X3: [wait_ready] returns at the first low level, having paused
    [delay_ms] after each level that was not low, and writes no pin while
    it waits. *)
Theorem wait_ready_returns_at_first_low
    (delay_ms : Z) (w : World) (busy rest : list Z) :
  pin_script w = busy ++ 0 :: rest ->
  Forall busy_level busy ->
  wait_ready delay_ms w =
    Some (tt, with_pin_script rest w,
          busy_checks (DOUT w) delay_ms busy ++ [DigitalRead (DOUT w) 0])
  /\ checks (busy_checks (DOUT w) delay_ms busy ++ [DigitalRead (DOUT w) 0])
     = S (length busy)
  /\ forall pin,
       clock_writes pin
         (busy_checks (DOUT w) delay_ms busy ++ [DigitalRead (DOUT w) 0]) = [].
Proof.
  intros Hscript Hbusy. split; [|split].
  - rewrite wait_ready_run,
      (proj2 (split_ready_Some (pin_script w) busy rest)) by (by split).
    reflexivity.
  - clear. unfold checks, busy_checks.
    induction busy as [|level busy IH]; [reflexivity|].
    cbn [flat_map app List.filter is_check length] in *. by rewrite IH.
  - intros pin. apply clock_writes_wait.
Qed.

Lemma wait_ready_returns_at_first_low_witness :
  wait_ready 7 (initial [1; 1; 0; 1] []) =
  Some (tt, initial [1] [],
        [DigitalRead P8 1; Pause 7; DigitalRead P8 1; Pause 7; DigitalRead P8 0]).
Proof.
  apply (wait_ready_returns_at_first_low 7 (initial [1; 1; 0; 1] []) [1; 1] [1]).
  - reflexivity.
  - repeat (apply List.Forall_cons; [unfold busy_level; lia|]).
    apply List.Forall_nil.
Defined.

(** X4: there is no way out of the wait but the device: when the data
    line never goes low, [wait_ready], [read], [set_gain], [begin] and,
    for at least one sample, [read_average], [get_value], [get_units],
    [tare] and [calibrate] do not return. *)
Theorem never_ready_never_returns (w : World) :
  Forall busy_level (pin_script w) ->
  (forall delay_ms, wait_ready delay_ms w = None)
  /\ read w = None
  /\ (forall gain, set_gain gain w = None)
  /\ (forall pinDOUT pinPD_SCK, begin pinDOUT pinPD_SCK w = None)
  /\ (forall n, 1 <= n ->
        read_average n w = None /\ get_value n w = None
        /\ get_units n w = None /\ tare n w = None)
  /\ (forall weight, calibrate weight w = None).
Proof.
  intros Hbusy. pose proof (split_ready_None _ Hbusy) as Hsplit.
  assert (forall w0, pin_script w0 = pin_script w -> read w0 = None) as Hread.
  { intros w0 E. by rewrite read_run, E, Hsplit. }
  assert (forall n, 1 <= n -> read_average n w = None) as Havg.
  { intros n Hn. unfold read_average, for_lt.
    destruct (Z.to_nat n) as [|k] eqn:E; [lia|].
    cbn [for_range]. by rewrite !bind_run, add_sample_run, (Hread w). }
  assert (forall n, 1 <= n -> get_value n w = None) as Hvalue.
  { intros n Hn. unfold get_value. by rewrite bind_run, Havg. }
  repeat split.
  - intros delay_ms. by rewrite wait_ready_run, Hsplit.
  - by apply Hread.
  - intros gain. rewrite set_gain_run. cbv zeta. by rewrite Hread.
  - intros pinDOUT pinPD_SCK. rewrite begin_run. by rewrite Hread.
  - by apply Havg.
  - by apply Hvalue.
  - unfold get_units. by rewrite bind_run, Hvalue.
  - unfold tare. by rewrite bind_run, Havg.
  - intros weight. unfold calibrate. by rewrite bind_run, Hvalue.
Qed.

Lemma never_ready_never_returns_witness :
  read (initial (replicate 30 1) []) = None.
Proof.
  destruct (never_ready_never_returns (initial (replicate 30 1) []))
    as (_ & H & _).
  - cbn [initial pin_script replicate].
    repeat (apply List.Forall_cons; [unfold busy_level; lia|]).
    apply List.Forall_nil.
  - exact H.
Defined.

(** ** The bounded wait against the unbounded one *)

(** X5: when the device becomes ready within [k] checks,
    [wait_ready_retry(k, d)] makes exactly the platform calls of
    [wait_ready(d)] and leaves the same state; with [k <= 0] it returns
    false at once, the data line not read. *)
Theorem wait_ready_retry_agrees (k delay_ms : Z) (w : World) :
  (forall busy rest,
      pin_script w = busy ++ 0 :: rest ->
      Forall busy_level busy ->
      Z.of_nat (length busy) < k ->
      exists w' tr,
        wait_ready_retry k delay_ms w = Some (true, w', tr)
        /\ wait_ready delay_ms w = Some (tt, w', tr))
  /\ (k <= 0 -> wait_ready_retry k delay_ms w = Some (false, w, [])).
Proof.
  split.
  - intros busy rest Hscript Hbusy Hk.
    exists (with_pin_script rest w), (wait_trace (DOUT w) delay_ms busy). split.
    + unfold wait_ready_retry. apply retry_loop_ready; try assumption; lia.
    + rewrite wait_ready_run,
        (proj2 (split_ready_Some (pin_script w) busy rest)) by (by split).
      reflexivity.
  - intros Hk. unfold wait_ready_retry.
    replace (Z.to_nat k) with 0%nat by lia. cbn [wait_ready_retry_loop].
    destruct (Z.ltb_spec 0 k); [lia|reflexivity].
Qed.

Lemma wait_ready_retry_agrees_witness :
  wait_ready_retry (-3) 5 (initial [0] []) = Some (false, initial [0] [], []).
Proof.
  destruct (wait_ready_retry_agrees (-3) 5 (initial [0] [])) as [_ H].
  apply H. lia.
Defined.

(** ** Waiting against the clock *)

Lemma runningTime_run (w : World) :
  runningTime w =
  match time_script w with
  | [] => None
  | t :: rest => Some (t, with_time_script rest w, [RunningTime t])
  end.
Proof. reflexivity. Qed.

Lemma timeout_loop_busy_round
    (timeout delay_ms start t level : Z) (fuel : nat) (w : World)
    (times levels : list Z) :
  time_script w = t :: times ->
  pin_script w = level :: levels ->
  t - start < timeout -> level <> 0 ->
  wait_ready_timeout_loop (S fuel) timeout delay_ms start w =
  match wait_ready_timeout_loop fuel timeout delay_ms start
          (with_pin_script levels (with_time_script times w)) with
  | Some (b, w', tr) =>
      Some (b, w', [RunningTime t; DigitalRead (DOUT w) level; Pause delay_ms] ++ tr)
  | None => None
  end.
Proof.
  intros Htime Hpin Ht Hlevel. cbn [wait_ready_timeout_loop].
  rewrite bind_run, runningTime_run, Htime.
  destruct (Z.ltb_spec (t - start) timeout); [|lia].
  rewrite bind_run, is_ready_run. cbn [pin_script with_time_script DOUT].
  rewrite Hpin. destruct (Z.eqb_spec level 0); [done|].
  rewrite bind_run. unfold pause at 1, emit at 1.
  destruct (wait_ready_timeout_loop fuel _ _ _ _) as [[[b w'] tr]|]; reflexivity.
Qed.

Lemma timeout_loop_ready (timeout delay_ms start t : Z) (trest prest : list Z)
    (rounds : list (Z * Z)) :
  forall (fuel : nat) (w : World),
    time_script w = map fst rounds ++ t :: trest ->
    pin_script w = map snd rounds ++ 0 :: prest ->
    Forall (busy_round start timeout) rounds ->
    t - start < timeout ->
    (length rounds < fuel)%nat ->
    wait_ready_timeout_loop fuel timeout delay_ms start w =
    Some (true, with_pin_script prest (with_time_script trest w),
          timeout_rounds (DOUT w) delay_ms rounds
          ++ [RunningTime t; DigitalRead (DOUT w) 0]).
Proof.
  induction rounds as [|[ti li] rounds IH];
    intros fuel w Htime Hpin Hrounds Ht Hfuel;
    (destruct fuel as [|fuel]; [cbn [length] in Hfuel; lia|]);
    cbn [map fst snd app length] in *.
  - cbn [wait_ready_timeout_loop].
    rewrite bind_run, runningTime_run, Htime.
    destruct (Z.ltb_spec (t - start) timeout); [|lia].
    rewrite bind_run, is_ready_run. cbn [pin_script with_time_script DOUT].
    rewrite Hpin. reflexivity.
  - apply Forall_cons in Hrounds as [[Hti Hli] Hrounds]. cbn [fst snd] in *.
    rewrite (timeout_loop_busy_round _ _ _ ti li fuel w _ _ Htime Hpin Hti Hli).
    rewrite (IH fuel (with_pin_script _ (with_time_script _ w)));
      [reflexivity|reflexivity|reflexivity|exact Hrounds|exact Ht|lia].
Qed.

Lemma timeout_loop_expired (timeout delay_ms start t : Z) (trest prest : list Z)
    (rounds : list (Z * Z)) :
  forall (fuel : nat) (w : World),
    time_script w = map fst rounds ++ t :: trest ->
    pin_script w = map snd rounds ++ prest ->
    Forall (busy_round start timeout) rounds ->
    timeout <= t - start ->
    (length rounds < fuel)%nat ->
    wait_ready_timeout_loop fuel timeout delay_ms start w =
    Some (false, with_pin_script prest (with_time_script trest w),
          timeout_rounds (DOUT w) delay_ms rounds ++ [RunningTime t]).
Proof.
  induction rounds as [|[ti li] rounds IH];
    intros fuel w Htime Hpin Hrounds Ht Hfuel;
    (destruct fuel as [|fuel]; [cbn [length] in Hfuel; lia|]);
    cbn [map fst snd app length] in *.
  - cbn [wait_ready_timeout_loop].
    rewrite bind_run, runningTime_run, Htime.
    destruct (Z.ltb_spec (t - start) timeout); [lia|].
    unfold mret, Driver_ret. cbn [app].
    rewrite <- Hpin. by destruct w.
  - apply Forall_cons in Hrounds as [[Hti Hli] Hrounds]. cbn [fst snd] in *.
    rewrite (timeout_loop_busy_round _ _ _ ti li fuel w _ _ Htime Hpin Hti Hli).
    rewrite (IH fuel (with_pin_script _ (with_time_script _ w)));
      [reflexivity|reflexivity|reflexivity|exact Hrounds|exact Ht|lia].
Qed.

(** X6: [wait_ready_timeout] measures the time from the clock value it
    reads on entry.  It returns true at the first check that finds the
    device ready while the elapsed time is below the timeout, and false
    at the first clock reading whose elapsed time has reached the timeout,
    the data line not being read in that turn. *)
Theorem wait_ready_timeout_result
    (timeout delay_ms t0 t : Z) (w : World) (rounds : list (Z * Z))
    (trest : list Z) :
  time_script w = t0 :: map fst rounds ++ t :: trest ->
  Forall (busy_round t0 timeout) rounds ->
  (forall prest,
      pin_script w = map snd rounds ++ 0 :: prest ->
      t - t0 < timeout ->
      wait_ready_timeout timeout delay_ms w =
      Some (true, with_pin_script prest (with_time_script trest w),
            RunningTime t0
              :: timeout_rounds (DOUT w) delay_ms rounds
              ++ [RunningTime t; DigitalRead (DOUT w) 0]))
  /\ (forall prest,
        pin_script w = map snd rounds ++ prest ->
        timeout <= t - t0 ->
        wait_ready_timeout timeout delay_ms w =
        Some (false, with_pin_script prest (with_time_script trest w),
              RunningTime t0
                :: timeout_rounds (DOUT w) delay_ms rounds ++ [RunningTime t])).
Proof.
  intros Htime Hrounds.
  assert (forall b tr prest,
            (forall fuel w0,
                time_script w0 = map fst rounds ++ t :: trest ->
                pin_script w0 = pin_script w ->
                DOUT w0 = DOUT w ->
                (length rounds < fuel)%nat ->
                wait_ready_timeout_loop fuel timeout delay_ms t0 w0 =
                Some (b, with_pin_script prest (with_time_script trest w0), tr)) ->
            wait_ready_timeout timeout delay_ms w =
            Some (b, with_pin_script prest (with_time_script trest w),
                  RunningTime t0 :: tr)) as Htop.
  { intros b tr prest Hloop. unfold wait_ready_timeout.
    rewrite bind_run, runningTime_run, Htime, bind_run. unfold gets at 1.
    cbn [time_script with_time_script].
    rewrite Hloop; [reflexivity|reflexivity|reflexivity|reflexivity|].
    rewrite length_app, length_map. cbn [length]. lia. }
  split; intros prest Hpin Ht; apply Htop; intros fuel w0 Ht0 Hp0 Hd0 Hfuel;
    rewrite <- Hd0.
  - apply timeout_loop_ready; try assumption. by rewrite Hp0.
  - apply timeout_loop_expired; try assumption. by rewrite Hp0.
Qed.

Lemma wait_ready_timeout_result_witness :
  wait_ready_timeout 100 10 (initial [1; 1; 0] [1000; 1000; 1050; 1100; 1200]) =
  Some (false, initial [0] [1200],
        [RunningTime 1000;
         RunningTime 1000; DigitalRead P8 1; Pause 10;
         RunningTime 1050; DigitalRead P8 1; Pause 10;
         RunningTime 1100]).
Proof.
  destruct (wait_ready_timeout_result 100 10 1000 1100
              (initial [1; 1; 0] [1000; 1000; 1050; 1100; 1200])
              [(1000, 1); (1050, 1)] [1200]) as [_ H].
  - reflexivity.
  - repeat (apply List.Forall_cons; [unfold busy_round; cbn; lia|]).
    apply List.Forall_nil.
  - apply (H [0]); [reflexivity|lia].
Defined.

(** ** The bit order of [shiftInSlow] *)

Lemma shift_bits_order (bitOrder : Z) (levels : list Z) :
  bitOrder <> 0 ->
  forall i value,
    shift_bits bitOrder i value levels = shift_bits 1 i value levels.
Proof.
  intros Hbo. induction levels as [|level levels IH]; intros i value;
    cbn [shift_bits]; [reflexivity|].
  destruct (Z.eqb_spec bitOrder 0); [done|]. cbn [Z.eqb]. apply IH.
Qed.

Lemma shift_bits_lsb (levels : list Z) :
  length levels = 8%nat -> Forall is_bit levels ->
  shift_bits 0 0 0 levels = unsigned_msb_first (rev levels).
Proof.
  intros Hlen Hbits.
  do 8 (destruct levels as [|? levels]; [discriminate|]).
  destruct levels; [|discriminate].
  repeat match goal with
         | H : Forall _ (_ :: _) |- _ => inversion H; clear H; subst
         end.
  repeat match goal with
         | H : is_bit _ |- _ => destruct H as [-> | ->]
         end; vm_compute; reflexivity.
Qed.

(** X7: [shiftInSlow] takes eight levels off the data line, one clock
    pulse each.  With [bitOrder = 0] the first level sampled is the least
    significant bit of the byte; with any other [bitOrder] it is the most
    significant one.  Either way the byte is between 0 and 255. *)
Theorem shiftInSlow_bit_order (w : World) (levels rest : list Z) :
  pin_script w = levels ++ rest ->
  length levels = 8%nat ->
  Forall is_bit levels ->
  shiftInSlow 0 w =
    Some (unsigned_msb_first (rev levels), with_pin_script rest w,
          flat_map (bit_cycle (PD_SCK w) (DOUT w)) levels)
  /\ (forall bitOrder,
        bitOrder <> 0 ->
        shiftInSlow bitOrder w =
        Some (unsigned_msb_first levels, with_pin_script rest w,
              flat_map (bit_cycle (PD_SCK w) (DOUT w)) levels))
  /\ 0 <= unsigned_msb_first (rev levels) <= 255
  /\ 0 <= unsigned_msb_first levels <= 255.
Proof.
  intros Hscript Hlen Hbits.
  assert (forall bitOrder,
            shiftInSlow bitOrder w =
            Some (shift_bits bitOrder 0 0 levels, with_pin_script rest w,
                  flat_map (bit_cycle (PD_SCK w) (DOUT w)) levels)) as Hrun.
  { intros bitOrder. rewrite shiftInSlow_run, Hscript.
    rewrite decide_True by (rewrite length_app; lia).
    by rewrite <- Hlen, take_app_length, drop_app_length. }
  split; [|split; [|split]].
  - by rewrite Hrun, shift_bits_lsb.
  - intros bitOrder Hbo.
    by rewrite Hrun, shift_bits_order, shift_bits_msb.
  - pose proof (unsigned_msb_first_range (rev levels) (List.Forall_rev Hbits)) as R.
    rewrite length_rev, Hlen in R. change (2 ^ Z.of_nat 8) with 256 in R. lia.
  - pose proof (unsigned_msb_first_range levels Hbits) as R.
    rewrite Hlen in R. change (2 ^ Z.of_nat 8) with 256 in R. lia.
Qed.

Lemma shiftInSlow_bit_order_witness :
  shiftInSlow 0 (initial [1; 1; 0; 0; 0; 0; 0; 0; 1] []) =
  Some (3, initial [1] [],
        flat_map (bit_cycle P0 P8) [1; 1; 0; 0; 0; 0; 0; 0]).
Proof.
  apply (shiftInSlow_bit_order (initial [1; 1; 0; 0; 0; 0; 0; 0; 1] [])
           [1; 1; 0; 0; 0; 0; 0; 0] [1]).
  - reflexivity.
  - reflexivity.
  - all_bits.
Defined.

(** ** The clock pulses of a read *)

Lemma flat_map_const {A B : Type} (x : list B) (l : list A) :
  flat_map (fun _ => x) l = concat (replicate (length l) x).
Proof.
  induction l as [|a l IH]; [reflexivity|].
  cbn [flat_map length replicate concat]. by rewrite IH.
Qed.

Lemma concat_replicate_add {A : Type} (n m : nat) (x : list A) :
  concat (replicate (n + m) x) = concat (replicate n x) ++ concat (replicate m x).
Proof.
  induction n as [|n IH]; [reflexivity|].
  cbn [Nat.add replicate concat]. by rewrite IH, app_assoc.
Qed.

Lemma rising_edges_pulses (n : nat) :
  length (List.filter (fun level => level =? 1) (concat (replicate n [1; 0]))) = n.
Proof.
  induction n as [|n IH]; [reflexivity|].
  cbn [replicate concat app List.filter Z.eqb Pos.eqb length]. by rewrite IH.
Qed.

Lemma clock_writes_other_pin (pin sck dout : DigitalPin) (levels : list Z) (n : nat) :
  pin <> sck ->
  clock_writes pin (flat_map (bit_cycle sck dout) levels ++ pulse_train sck n) = [].
Proof.
  intros Hpin. rewrite clock_writes_app.
  assert (clock_writes pin (flat_map (bit_cycle sck dout) levels) = []) as ->.
  { induction levels as [|level levels IH]; [reflexivity|].
    cbn [flat_map]. rewrite clock_writes_app, IH.
    unfold clock_writes, bit_cycle. cbn [flat_map app].
    by rewrite !decide_False by congruence. }
  cbn [app]. unfold pulse_train. induction n as [|n IH]; [reflexivity|].
  cbn [replicate concat]. rewrite clock_writes_app, IH.
  unfold clock_writes, gain_pulse. cbn [flat_map app].
  by rewrite !decide_False by congruence.
Qed.

Lemma checks_read_trace (w : World) (busy levels : list Z) :
  checks (read_trace w busy levels) = (length busy + 1 + length levels)%nat.
Proof.
  unfold checks, read_trace, wait_trace. rewrite !List.filter_app, !length_app.
  assert (length (List.filter is_check
            (flat_map (fun level => [DigitalRead (DOUT w) level; Pause 0]) busy))
          = length busy) as ->.
  { induction busy as [|b busy IH]; [reflexivity|].
    cbn [flat_map app List.filter is_check length]. by rewrite IH. }
  assert (length (List.filter is_check
            (flat_map (bit_cycle (PD_SCK w) (DOUT w)) levels)) = length levels) as ->.
  { induction levels as [|l levels IH]; [reflexivity|].
    cbn [flat_map]. rewrite List.filter_app, length_app, IH. reflexivity. }
  assert (length (List.filter is_check
            (pulse_train (PD_SCK w) (Z.to_nat (GAIN w)))) = 0%nat) as ->.
  { unfold pulse_train. induction (Z.to_nat (GAIN w)) as [|n IH]; [reflexivity|].
    cbn [replicate concat]. rewrite List.filter_app, length_app, IH. reflexivity. }
  cbn [List.filter is_check length]. lia.
Qed.

(** X8: a [read] that returns raises the clock [24 + GAIN] times, 25, 27
    or 26 times for the three selectors, each time lowering it again
    before the next; it writes no other pin, and it takes from the data
    line one level per readiness check and one per data bit. *)
Theorem read_clock_pulses (w w' : World) (v : Z) (tr : trace) :
  read w = Some (v, w', tr) ->
  clock_writes (PD_SCK w) tr =
    concat (replicate (24 + Z.to_nat (GAIN w)) [1; 0])
  /\ rising_edges (PD_SCK w) tr = (24 + Z.to_nat (GAIN w))%nat
  /\ (forall pin, pin <> PD_SCK w -> clock_writes pin tr = [])
  /\ (length (pin_script w) = checks tr + length (pin_script w'))%nat
  /\ (25 <= checks tr)%nat.
Proof.
  intros Hread.
  apply read_inv in Hread
    as (busy & levels & rest & Hscript & _ & Hlen & _ & -> & ->).
  assert (clock_writes (PD_SCK w) (read_trace w busy levels) =
          concat (replicate (24 + Z.to_nat (GAIN w)) [1; 0])) as Hwrites.
  { unfold read_trace.
    rewrite !clock_writes_app, clock_writes_wait, clock_writes_bits,
      clock_writes_pulses, flat_map_const, Hlen, concat_replicate_add.
    reflexivity. }
  split; [exact Hwrites|]. split; [|split; [|split]].
  - unfold rising_edges. rewrite Hwrites. apply rising_edges_pulses.
  - intros pin Hpin. unfold read_trace.
    rewrite clock_writes_app, clock_writes_wait. cbn [app].
    by apply clock_writes_other_pin.
  - rewrite checks_read_trace, Hscript. cbn [pin_script with_pin_script].
    rewrite !length_app. cbn [length]. rewrite length_app. lia.
  - rewrite checks_read_trace. lia.
Qed.

Lemma read_clock_pulses_witness :
  rising_edges P0 (read_trace (with_GAIN 3 (initial [] [])) [] (replicate 24 0))
  = 27%nat.
Proof.
  apply (read_clock_pulses
           (with_GAIN 3 (initial (0 :: replicate 24 0) []))
           (with_GAIN 3 (initial [] [])) 0
           (read_trace (with_GAIN 3 (initial [] [])) [] (replicate 24 0))).
  vm_compute. reflexivity.
Defined.

(** ** Power-down and the readiness wait *)

(** X9: [power_down] leaves the clock high and [power_up] leaves it low.
    [read] writes no pin before the device reports ready, so a [read]
    that follows [power_down] waits with the clock still high; with
    [power_up] in between it waits with the clock low. *)
Theorem read_after_power_down (w w' : World) (v : Z) (tr : trace) :
  (power_down;; read) w = Some (v, w', tr) ->
  exists (busy : list Z) (critical : trace),
    tr = [DigitalWrite (PD_SCK w) 0; DigitalWrite (PD_SCK w) 1]
         ++ wait_trace (DOUT w) 0 busy ++ critical
    /\ clock_level (PD_SCK w)
         ([DigitalWrite (PD_SCK w) 0; DigitalWrite (PD_SCK w) 1]
          ++ wait_trace (DOUT w) 0 busy) = Some 1
    /\ clock_level (PD_SCK w) tr = Some 0
    /\ (power_down;; power_up;; read) w =
         Some (v, w',
               [DigitalWrite (PD_SCK w) 0; DigitalWrite (PD_SCK w) 1;
                DigitalWrite (PD_SCK w) 0]
               ++ wait_trace (DOUT w) 0 busy ++ critical)
    /\ clock_level (PD_SCK w)
         ([DigitalWrite (PD_SCK w) 0; DigitalWrite (PD_SCK w) 1;
           DigitalWrite (PD_SCK w) 0]
          ++ wait_trace (DOUT w) 0 busy) = Some 0.
Proof.
  intros H. apply bind_Some in H as ([] & w1 & t1 & t2 & Hdown & Hread & ->).
  change (power_down w)
    with (Some (tt, w, [DigitalWrite (PD_SCK w) 0; DigitalWrite (PD_SCK w) 1]))
    in Hdown.
  injection Hdown as <- <-.
  pose proof Hread as Hinv.
  apply read_inv in Hinv
    as (busy & levels & rest & _ & _ & Hlen & _ & _ & Htr).
  exists busy, (flat_map (bit_cycle (PD_SCK w) (DOUT w)) levels
                ++ pulse_train (PD_SCK w) (Z.to_nat (GAIN w))).
  assert (forall pre, clock_level (PD_SCK w) (pre ++ wait_trace (DOUT w) 0 busy)
                      = last (clock_writes (PD_SCK w) pre)) as Hwait.
  { intros pre. unfold clock_level.
    by rewrite clock_writes_app, clock_writes_wait, app_nil_r. }
  assert (clock_level (PD_SCK w) t2 = Some 0) as Hlow.
  { rewrite Htr. unfold clock_level, read_trace.
    rewrite app_assoc, clock_writes_app, clock_writes_pulses.
    apply last_low_pulses.
    rewrite clock_writes_app, clock_writes_wait, clock_writes_bits.
    apply last_low_bits. by destruct levels. }
  split; [by rewrite Htr|]. split; [|split; [|split]].
  - rewrite Hwait. unfold clock_writes. cbn [flat_map app].
    by rewrite !decide_True.
  - unfold clock_level in *. rewrite clock_writes_app, last_app, Hlow.
    reflexivity.
  - rewrite bind_run.
    change (power_down w)
      with (Some (tt, w, [DigitalWrite (PD_SCK w) 0; DigitalWrite (PD_SCK w) 1])).
    cbv beta iota. rewrite bind_run.
    change (power_up w) with (Some (tt, w, [DigitalWrite (PD_SCK w) 0])).
    cbv beta iota. by rewrite Hread, Htr.
  - rewrite Hwait. unfold clock_writes. cbn [flat_map app].
    by rewrite !decide_True.
Qed.

Lemma read_after_power_down_witness :
  exists busy critical,
    DigitalWrite P0 0 :: DigitalWrite P0 1
      :: read_trace (initial [] []) [1] (replicate 24 0) =
    [DigitalWrite P0 0; DigitalWrite P0 1] ++ wait_trace P8 0 busy ++ critical.
Proof.
  destruct (read_after_power_down
              (initial (1 :: 0 :: replicate 24 0) []) (initial [] []) 0
              (DigitalWrite P0 0 :: DigitalWrite P0 1
                 :: read_trace (initial [] []) [1] (replicate 24 0)))
    as (busy & critical & H & _).
  - vm_compute. reflexivity.
  - exists busy, critical. exact H.
Defined.

(** ** Which call assigns which variable *)

Lemma footprint_of_same_vars (c : call) (w w' : World) :
  same_vars w w' ->
  (writes_pins c = false -> PD_SCK w' = PD_SCK w /\ DOUT w' = DOUT w)
  /\ (writes_GAIN c = false -> GAIN w' = GAIN w)
  /\ (writes_OFFSET c = false -> OFFSET w' = OFFSET w)
  /\ (writes_SCALE c = false -> SCALE w' = SCALE w)
  /\ (writes_CAL_RATIO c = false -> CAL_RATIO w' = CAL_RATIO w).
Proof. intros (H1 & H2 & H3 & H4 & H5 & H6). by repeat split. Qed.

Lemma dropped_result {A : Type} (m : Driver A) (w w' : World) (t : trace) :
  keeps_vars m -> (m;; mret tt) w = Some (tt, w', t) -> same_vars w w'.
Proof.
  intros Hm H. apply bind_Some in H as (a & w1 & t1 & t2 & H1 & [= <- _] & _).
  eapply Hm, H1.
Qed.

(** X15: each module-level variable is assigned by few calls only: the
    pins by [begin]; the pulse count by [begin] and [set_gain]; the
    offset by [tare] and [set_offset]; the scale by [set_scale]; the
    calibration ratio by [calibrate].  Every other call that returns
    leaves the variable as it found it. *)
Theorem call_footprint (c : call) (w w' : World) (t : trace) :
  perform c w = Some (tt, w', t) ->
  (writes_pins c = false -> PD_SCK w' = PD_SCK w /\ DOUT w' = DOUT w)
  /\ (writes_GAIN c = false -> GAIN w' = GAIN w)
  /\ (writes_OFFSET c = false -> OFFSET w' = OFFSET w)
  /\ (writes_SCALE c = false -> SCALE w' = SCALE w)
  /\ (writes_CAL_RATIO c = false -> CAL_RATIO w' = CAL_RATIO w).
Proof.
  destruct c; cbn [perform]; intros H;
    try (apply footprint_of_same_vars; eapply dropped_result; [|exact H]).
  - (* begin *)
    rewrite begin_run in H.
    destruct (read _) as [[[v w2] t2]|] eqn:Hread; [|discriminate].
    injection H as <- _.
    apply keeps_read in Hread as (_ & _ & _ & H4 & H5 & H6).
    by repeat split.
  - apply keeps_is_ready.
  - (* set_gain *)
    rewrite set_gain_run in H. cbv zeta in H.
    destruct (read _) as [[[v w2] t2]|] eqn:Hread; [|discriminate].
    injection H as <- _.
    apply keeps_read in Hread as (H1 & H2 & _ & H4 & H5 & H6).
    by repeat split.
  - apply keeps_shiftInSlow.
  - apply keeps_read.
  - apply footprint_of_same_vars. eapply keeps_wait_ready, H.
  - apply keeps_wait_ready_retry_loop.
  - apply keeps_wait_ready_timeout.
  - apply keeps_read_average.
  - apply keeps_get_value.
  - (* calibrate *)
    apply calibrate_inv in H as (v & w1 & Hv & ->).
    apply keeps_get_value in Hv as (H1 & H2 & H3 & H4 & H5 & H6).
    by repeat split.
  - apply keeps_get_units.
  - (* tare *)
    unfold tare in H.
    apply bind_Some in H as (avg & w1 & t1 & t2 & Havg & Hset & _).
    injection Hset as <- _.
    apply keeps_read_average in Havg as (H1 & H2 & H3 & H4 & H5 & H6).
    by repeat split.
  - injection H as <- _. by repeat split.
  - unfold get_scale. keeps.
  - injection H as <- _. by repeat split.
  - unfold get_offset. keeps.
  - apply footprint_of_same_vars.
    assert (keeps_vars power_up) as K by (unfold power_up, digitalWritePin; keeps).
    eapply K, H.
  - apply footprint_of_same_vars.
    assert (keeps_vars power_down) as K
      by (unfold power_down, digitalWritePin; keeps).
    eapply K, H.
Qed.

Lemma call_footprint_witness :
  SCALE (with_OFFSET 1%float (initial [1] [])) =
  SCALE (initial (0 :: replicate 23 0 ++ [1; 1]) []).
Proof.
  destruct (call_footprint (CallTare 1)
              (initial (0 :: replicate 23 0 ++ [1; 1]) [])
              (with_OFFSET 1%float (initial [1] []))
              (read_trace (initial [] []) [] (replicate 23 0 ++ [1]) ++ [Pause 0]))
    as (_ & _ & _ & H & _).
  - vm_compute. reflexivity.
  - apply H. reflexivity.
Defined.
